(** * vk-video-api: the URL resolver and the embed synthesizer

    A shallow embedding of [supabase/functions/vk-video-api/index.ts].

    - JavaScript strings are modelled as [string] (code units below 256;
      every character the handler's patterns name is ASCII, so the two
      line terminators U+2028 and U+2029 are the only code units the
      patterns tell apart that lie outside the model).
    - [String.prototype.match] with a non-global pattern is modelled by a
      backtracking matcher in continuation-passing style with the
      priorities of the ECMAScript algorithm (leftmost start, greedy
      quantifiers, first alternative first).
    - The request body is an arbitrary JSON value; numbers are binary64
      values ([spec_float]).
    - The single outbound call is an explicit node of the handler's
      result, so that "no provider call" is a statement about its shape.
    - [console.log] and [console.error] are not modelled. *)

From Stdlib Require Import Bool Arith Lia List Ascii String ZArith.
From Stdlib Require Import Floats.SpecFloat.
Import ListNotations.

Local Open Scope string_scope.
Local Open Scope bool_scope.

Set Implicit Arguments.

(* ================================================================== *)
(** ** Strings *)

Module Str.

(** [s.includes(needle)] *)
Fixpoint includes (needle s : string) : bool :=
  if String.prefix needle s then true
  else match s with
       | EmptyString => false
       | String _ s' => includes needle s'
       end.

(** The first [n] code units of [s] ([s.slice(0, n)]). *)
Fixpoint take (n : nat) (s : string) : string :=
  match n, s with
  | S n', String c s' => String c (take n' s')
  | _, _ => EmptyString
  end.

(** [s.slice(n)] *)
Fixpoint drop (n : nat) (s : string) : string :=
  match n, s with
  | S n', String _ s' => drop n' s'
  | _, _ => s
  end.

(** The text between two positions of one string, given as the two
    remainders [s] and [s'] ([s'] a suffix of [s]). *)
Definition between (s s' : string) : string :=
  take (String.length s - String.length s') s.

Fixpoint all (p : ascii -> bool) (s : string) : bool :=
  match s with
  | EmptyString => true
  | String c s' => p c && all p s'
  end.

End Str.

(* ================================================================== *)
(** ** Characters and character classes of the patterns *)

Module Chr.

Definition code (c : ascii) : nat := nat_of_ascii c.

Definition in_range (lo hi c : ascii) : bool :=
  Nat.leb (code lo) (code c) && Nat.leb (code c) (code hi).

Definition is_upper (c : ascii) : bool := in_range "A" "Z" c.
Definition is_lower (c : ascii) : bool := in_range "a" "z" c.

Definition to_lower (c : ascii) : ascii :=
  if is_upper c then ascii_of_nat (code c + 32) else c.

Definition to_upper (c : ascii) : ascii :=
  if is_lower c then ascii_of_nat (code c - 32) else c.

(** Two code units are the same under the [i] flag.  Without the [u]
    flag a code unit of 128 or more is never identified with an ASCII
    one, so folding the ASCII letters is the whole of Canonicalize as
    far as patterns made of ASCII characters can observe. *)
Definition eqb_ci (c d : ascii) : bool :=
  Ascii.eqb (to_lower c) (to_lower d).

Definition is_digit (c : ascii) : bool := in_range "0" "9" c.

(** LF and CR: what [.] refuses. *)
Definition is_line_terminator (c : ascii) : bool :=
  Ascii.eqb c "010" || Ascii.eqb c "013".

End Chr.

(* ================================================================== *)
(** ** Patterns *)

Module Regex.

(** A member of a bracketed class. *)
Inductive class_item : Type :=
| One (c : ascii)
| Range (lo hi : ascii).

Definition in_item (it : class_item) (c : ascii) : bool :=
  match it with
  | One d => Ascii.eqb c d
  | Range lo hi => Chr.in_range lo hi c
  end.

(** What consumes exactly one code unit. *)
Inductive atom : Type :=
| Lit (c : ascii)                 (* a literal character *)
| Dot                             (* [.] *)
| Digit                           (* [\d] *)
| Class (items : list class_item) (* [[...]] *).

(** All the handler's patterns carry the [i] flag: a literal or a class
    member matches a code unit when they agree up to case. *)
Definition amatch (a : atom) (c : ascii) : bool :=
  match a with
  | Lit d => Chr.eqb_ci c d
  | Dot => negb (Chr.is_line_terminator c)
  | Digit => Chr.is_digit c
  | Class items =>
      existsb (fun it => in_item it (Chr.to_lower c) || in_item it (Chr.to_upper c)) items
  end.

(** The fragment of the pattern language the handler uses: quantifiers
    are only ever applied to one-character atoms, except [?], and groups
    are never nested nor placed under an alternative. *)
Inductive regex : Type :=
| Eps
| Atom (a : atom)
| Seq (r1 r2 : regex)
| Alt (r1 r2 : regex)
| Opt (r : regex)      (* [r?], greedy *)
| Star (a : atom)      (* [a*], greedy *)
| Plus (a : atom)      (* [a+], greedy *)
| Group (r : regex)    (* [(r)], capturing *).

(** A run of literal characters. *)
Fixpoint lit (w : string) : regex :=
  match w with
  | EmptyString => Eps
  | String c w' => Seq (Atom (Lit c)) (lit w')
  end.

Definition captures := list string.

Section Matcher.
Variable A : Type.

(** Greedy iteration of an atom: take as many code units as match,
    then give them back one at a time until the continuation
    accepts. *)
Fixpoint star (a : atom) (s : string) (k : string -> option A) : option A :=
  match s with
  | String c s' =>
      if amatch a c then
        match star a s' k with
        | Some r => Some r
        | None => k s
        end
      else k s
  | EmptyString => k s
  end.

(** [run r s cs k]: match [r] at the front of [s], with the captures
    [cs] collected so far, and hand the remainder to [k]; a [None]
    from [k] makes the matcher try its next choice. *)
Fixpoint run (r : regex) (s : string) (cs : captures)
         (k : string -> captures -> option A) : option A :=
  match r with
  | Eps => k s cs
  | Atom a =>
      match s with
      | String c s' => if amatch a c then k s' cs else None
      | EmptyString => None
      end
  | Seq r1 r2 => run r1 s cs (fun s1 cs1 => run r2 s1 cs1 k)
  | Alt r1 r2 =>
      match run r1 s cs k with
      | Some x => Some x
      | None => run r2 s cs k
      end
  | Opt r1 =>
      match run r1 s cs k with
      | Some x => Some x
      | None => k s cs
      end
  | Star a => star a s (fun s' => k s' cs)
  | Plus a =>
      match s with
      | String c s' => if amatch a c then star a s' (fun s'' => k s'' cs) else None
      | EmptyString => None
      end
  | Group r1 => run r1 s cs (fun s' cs' => k s' (cs' ++ [Str.between s s'])%list)
  end.
End Matcher.

(** The pattern anchored at the front of [s]: the matched text followed
    by the captured groups, as in the array [match] returns. *)
Definition match_here (r : regex) (s : string) : option (list string) :=
  run r s [] (fun s' cs => Some (Str.between s s' :: cs)).

(** [s.match(r)] for a pattern without the [g] flag: the leftmost start
    at which the pattern matches; [None] is JavaScript's [null]. *)
Fixpoint js_match (r : regex) (s : string) : option (list string) :=
  match match_here r s with
  | Some m => Some m
  | None =>
      match s with
      | EmptyString => None
      | String _ s' => js_match r s'
      end
  end.

(** [m[i]] *)
Definition group (m : list string) (i : nat) : option string := nth_error m i.

End Regex.

Import Regex.

(* ================================================================== *)
(** ** The handler's patterns *)

Definition digits1 : regex := Plus Digit.
Definition signed_int : regex := Seq (Opt (Atom (Lit "-"))) digits1.
Definition hex_class : atom := Class [Range "a" "f"; Range "0" "9"].

(** [/video_ext\.php\?.*oid=(-?\d+).*id=(\d+)/i] *)
Definition extRe : regex :=
  Seq (lit "video_ext.php?")
  (Seq (Star Dot)
  (Seq (lit "oid=")
  (Seq (Group signed_int)
  (Seq (Star Dot)
  (Seq (lit "id=")
       (Group digits1)))))).

(** [/[?&]hash=([a-f0-9]+)/i] *)
Definition hashRe : regex :=
  Seq (Atom (Class [One "?"; One "&"]))
  (Seq (lit "hash=")
       (Group (Plus hex_class))).

(** [/(?:vk\.com|vk\.ru|vkvideo\.ru)\/video(-?\d+)_(\d+)/i] *)
Definition standardRe : regex :=
  Seq (Alt (lit "vk.com") (Alt (lit "vk.ru") (lit "vkvideo.ru")))
  (Seq (lit "/video")
  (Seq (Group signed_int)
  (Seq (lit "_")
       (Group digits1)))).

(** [/video\?z=video(-?\d+)_(\d+)/i] *)
Definition zRe : regex :=
  Seq (lit "video?z=video")
  (Seq (Group signed_int)
  (Seq (lit "_")
       (Group digits1))).

(** [/video-?\d+_\d+_([a-f0-9]+)/i] *)
Definition accessKeyRe : regex :=
  Seq (lit "video")
  (Seq signed_int
  (Seq (lit "_")
  (Seq digits1
  (Seq (lit "_")
       (Group (Plus hex_class)))))).

(* ================================================================== *)
(** ** URL parsing (lines 43-97 of the handler) *)

(** Truthiness of a [string | null] variable. *)
Definition truthy_str (v : option string) : bool :=
  match v with
  | Some (String _ _) => true
  | _ => false
  end.

(** The three [let] variables of the handler. *)
Record Parsed : Type := mkParsed {
  ownerId : option string;
  videoId : option string;
  existingAccessKey : option string
}.

(** [!ownerId || !videoId] *)
Definition ids_missing (p : Parsed) : bool :=
  negb (truthy_str (ownerId p)) || negb (truthy_str (videoId p)).

(** Check for the [video_ext.php] format first. *)
Definition step_ext (videoUrl : string) (p : Parsed) : Parsed :=
  match js_match extRe videoUrl with
  | Some extMatch =>
      let p1 := mkParsed (group extMatch 1) (group extMatch 2) (existingAccessKey p) in
      match js_match hashRe videoUrl with
      | Some hashMatch => mkParsed (ownerId p1) (videoId p1) (group hashMatch 1)
      | None => p1
      end
  | None => p
  end.

(** Standard video URL format. *)
Definition step_standard (videoUrl : string) (p : Parsed) : Parsed :=
  if ids_missing p then
    match js_match standardRe videoUrl with
    | Some standardMatch =>
        mkParsed (group standardMatch 1) (group standardMatch 2) (existingAccessKey p)
    | None => p
    end
  else p.

(** The [z=video] format. *)
Definition step_z (videoUrl : string) (p : Parsed) : Parsed :=
  if ids_missing p then
    match js_match zRe videoUrl with
    | Some zMatch => mkParsed (group zMatch 1) (group zMatch 2) (existingAccessKey p)
    | None => p
    end
  else p.

(** The access key carried in the path. *)
Definition step_accessKey (videoUrl : string) (p : Parsed) : Parsed :=
  match js_match accessKeyRe videoUrl with
  | Some accessKeyMatch => mkParsed (ownerId p) (videoId p) (group accessKeyMatch 1)
  | None => p
  end.

(** The [hash] parameter, when no key is known yet. *)
Definition step_hashParam (videoUrl : string) (p : Parsed) : Parsed :=
  if negb (truthy_str (existingAccessKey p)) then
    match js_match hashRe videoUrl with
    | Some hashParamMatch => mkParsed (ownerId p) (videoId p) (group hashParamMatch 1)
    | None => p
    end
  else p.

(** The three variables as declared: all [null]. *)
Definition initial : Parsed := mkParsed None None None.

Definition parse (videoUrl : string) : Parsed :=
  step_hashParam videoUrl
    (step_accessKey videoUrl
      (step_z videoUrl
        (step_standard videoUrl
          (step_ext videoUrl initial)))).

(* ================================================================== *)
(** ** JSON values, responses and the provider's reply *)

(** A JavaScript number. *)
Definition number : Type := spec_float.

Definition truthy_num (n : number) : bool :=
  match n with
  | S754_zero _ | S754_nan => false
  | _ => true
  end.

(** A JSON value as [JSON.parse] returns it; an object lists its
    properties, each key once. *)
#[warnings="-register-all"]
Inductive json : Type :=
| JNull
| JBool (b : bool)
| JNum (n : number)
| JStr (s : string)
| JArr (items : list json)
| JObj (fields : list (string * json)).

Definition truthy (v : json) : bool :=
  match v with
  | JNull => false
  | JBool b => b
  | JNum n => truthy_num n
  | JStr s => truthy_str (Some s)
  | JArr _ | JObj _ => true
  end.

Fixpoint lookup (key : string) (fields : list (string * json)) : option json :=
  match fields with
  | [] => None
  | (k, v) :: rest => if String.eqb k key then Some v else lookup key rest
  end.

(** A number as [JSON.stringify] writes it: [Infinity] and [NaN] become
    [null], and the negative zero loses its sign. *)
Definition sent_number (n : number) : json :=
  match n with
  | S754_finite _ _ _ => JNum n
  | S754_zero _ => JNum (S754_zero false)
  | S754_infinity _ => JNull
  | S754_nan => JNull
  end.

(** A value as the client reads it back from the text [JSON.stringify]
    made of it. *)
Fixpoint as_sent (v : json) : json :=
  match v with
  | JNum n => sent_number n
  | JArr items => JArr (map as_sent items)
  | JObj fields => JObj (map (fun kv : string * json => let (k, x) := kv in (k, as_sent x)) fields)
  | _ => v
  end.

(** The object handed to [JSON.stringify], as it is sent: a property
    whose value is [undefined] is left out, the other values are written
    as [as_sent] says. *)
Fixpoint stringify (props : list (string * option json)) : list (string * json) :=
  match props with
  | [] => []
  | (k, Some v) :: rest => (k, as_sent v) :: stringify rest
  | (_, None) :: rest => stringify rest
  end.

Definition obj (props : list (string * option json)) : json := JObj (stringify props).

(** A [string | null] value as JSON. *)
Definition jstr (v : option string) : json :=
  match v with
  | Some s => JStr s
  | None => JNull
  end.

(** [v || null] for an optional string. *)
Definition str_or_null (v : option string) : json :=
  match v with
  | Some (String c s) => JStr (String c s)
  | _ => JNull
  end.

(** [v || null] for an optional number. *)
Definition num_or_null (v : option number) : json :=
  match v with
  | Some n => if truthy_num n then JNum n else JNull
  | None => JNull
  end.

(** A string or [null] inside a template literal. *)
Definition tmpl (v : option string) : string :=
  match v with
  | Some s => s
  | None => "null"
  end.

Record Response : Type := mkResponse {
  status : nat;
  headers : list (string * string);
  body : option json
}.

Definition corsHeaders : list (string * string) :=
  [ ("Access-Control-Allow-Origin", "*");
    ("Access-Control-Allow-Headers", "authorization, x-client-info, apikey, content-type") ].

(** [{ ...corsHeaders, 'Content-Type': 'application/json' }] *)
Definition jsonHeaders : list (string * string) :=
  (corsHeaders ++ [ ("Content-Type", "application/json") ])%list.

(** [new Response(JSON.stringify(o), { status, headers })] *)
Definition json_response (st : nat) (props : list (string * option json)) : Response :=
  mkResponse st jsonHeaders (Some (obj props)).

(** The reply of [video.get], with the shape the VK API documents: an
    [error] object, or a [response] with its [items].  A property that is
    absent is [None]. *)
Record VKError : Type := mkVKError {
  error_msg : option string;
  error_code : option number
}.

Record VKVideo : Type := mkVKVideo {
  access_key : option string;
  player : option string;
  title : option string;
  duration : option number
}.

Record VKResponse : Type := mkVKResponse {
  items : option (list VKVideo)
}.

Record VKData : Type := mkVKData {
  error : option VKError;
  response : option VKResponse
}.

(* ================================================================== *)
(** ** Effects: exceptions and the outbound call *)

(** What an awaited promise settles to; a rejection carries the text
    [String(error)] would give. *)
Inductive outcome (A : Type) : Type :=
| Ok (a : A)
| Rejected (e : string).

Arguments Rejected {A} e.

Inductive eff (A : Type) : Type :=
| Pure (a : A)
| Throw (e : string)
| Fetch (url : string) (k : outcome VKData -> eff A).

Arguments Throw {A} e.

Fixpoint bind {A B : Type} (m : eff A) (f : A -> eff B) : eff B :=
  match m with
  | Pure a => f a
  | Throw e => Throw e
  | Fetch url k => Fetch url (fun o => bind (k o) f)
  end.

(** [try { m } catch (error) { h error }] *)
Fixpoint try_catch {A : Type} (m : eff A) (h : string -> eff A) : eff A :=
  match m with
  | Pure a => Pure a
  | Throw e => h e
  | Fetch url k => Fetch url (fun o => try_catch (k o) h)
  end.

Definition settle {A : Type} (o : outcome A) : eff A :=
  match o with
  | Ok a => Pure a
  | Rejected e => Throw e
  end.

(** [await (await fetch(url)).json()] *)
Definition fetch_json (url : string) : eff VKData := Fetch url settle.

Notation "x <- m ;; f" := (bind m (fun x => f))
  (at level 61, m at next level, right associativity).

(** Running a handler against a provider. *)
Fixpoint exec {A : Type} (provider : string -> outcome VKData) (m : eff A) : outcome A :=
  match m with
  | Pure a => Ok a
  | Throw e => Rejected e
  | Fetch url k => exec provider (k (provider url))
  end.

(** The handler answers without calling the provider. *)
Definition answers_locally {A : Type} (m : eff A) (a : A) : Prop := m = Pure a.

(* ================================================================== *)
(** ** The request handler *)

Record Request : Type := mkRequest {
  method : string;
  (** what [req.json()] settles to *)
  json_body : outcome json
}.

(** [const { videoUrl } = value]: [None] is [undefined]. *)
Definition destructure_videoUrl (value : json) : eff (option json) :=
  match value with
  | JNull =>
      Throw "TypeError: Cannot destructure property 'videoUrl' of '(intermediate value)' as it is null."
  | JObj fields => Pure (lookup "videoUrl" fields)
  | _ => Pure None
  end.

(** The receiver of [videoUrl.match(...)]: only a string has the method. *)
Definition match_receiver (videoUrl : json) : eff string :=
  match videoUrl with
  | JStr s => Pure s
  | _ => Throw "TypeError: videoUrl.match is not a function"
  end.

(** The embed URL with the access key as [hash] (lines 132, 165, 207). *)
Definition hash_embed_url (p : Parsed) (key : option string) : string :=
  "https://vk.com/video_ext.php?oid=" ++ tmpl (ownerId p) ++ "&id=" ++ tmpl (videoId p)
    ++ "&hash=" ++ tmpl key ++ "&hd=2&autoplay=0".

(** Public video without access key (line 210). *)
Definition public_embed_url (p : Parsed) : string :=
  "https://vk.com/video_ext.php?oid=" ++ tmpl (ownerId p) ++ "&id=" ++ tmpl (videoId p)
    ++ "&hd=2&autoplay=0".

(** The fallback answer (lines 135-145 and 166-176). *)
Definition fallback_response (p : Parsed) : Response :=
  json_response 200
    [ ("success", Some (JBool true));
      ("embedUrl", Some (JStr (hash_embed_url p (existingAccessKey p))));
      ("ownerId", Some (jstr (ownerId p)));
      ("videoId", Some (jstr (videoId p)));
      ("accessKey", Some (jstr (existingAccessKey p)));
      ("source", Some (JStr "fallback")) ].

Definition hint_text : string :=
  "For " ++ String "034" "Anyone with the link" ++ String "034"
    " videos, make sure to include the access_key or hash in the URL".

(** [a || b] on [string | null | undefined] values. *)
Definition or_else (a b : option string) : option string :=
  if truthy_str a then a else b.

(** [embedUrl.replace(/^http:/, 'https:')] *)
Definition ensure_https (embedUrl : string) : string :=
  if String.prefix "http:" embedUrl then "https:" ++ Str.drop 5 embedUrl else embedUrl.

(** Add quality and autoplay params if not present (lines 199-204). *)
Definition add_hd (embedUrl : string) : string :=
  if negb (Str.includes "hd=" embedUrl)
  then embedUrl ++ (if Str.includes "?" embedUrl then "&" else "?") ++ "hd=2"
  else embedUrl.

Definition add_autoplay (embedUrl : string) : string :=
  if negb (Str.includes "autoplay=" embedUrl)
  then embedUrl ++ "&autoplay=0"
  else embedUrl.

(** Lines 185-211: the embed URL for the first record. *)
Definition embed_url (p : Parsed) (video : VKVideo) (accessKey : option string) : string :=
  if truthy_str (player video) then
    add_autoplay (add_hd (ensure_https (tmpl (player video))))
  else if truthy_str accessKey then
    hash_embed_url p accessKey
  else
    public_embed_url p.

(** [vkData.response?.items || []] *)
Definition videos_of (vkData : VKData) : list VKVideo :=
  match response vkData with
  | Some r => match items r with Some l => l | None => [] end
  | None => []
  end.

(** Lines 127-228: from the provider's reply to the response. *)
Definition synthesize (p : Parsed) (vkData : VKData) : Response :=
  match error vkData with
  | Some vkError =>
      if truthy_str (existingAccessKey p) then fallback_response p
      else
        json_response 400
          [ ("error", Some (jstr (or_else (error_msg vkError) (Some "VK API error"))));
            ("errorCode", option_map JNum (error_code vkError));
            ("hint", Some (JStr hint_text)) ]
  | None =>
      let videos := videos_of vkData in
      match videos with
      | [] =>
          if truthy_str (existingAccessKey p) then fallback_response p
          else json_response 404 [ ("error", Some (JStr "Video not found or not accessible")) ]
      | video :: _ =>
          let accessKey := or_else (access_key video) (existingAccessKey p) in
          let embedUrl := embed_url p video accessKey in
          json_response 200
            [ ("success", Some (JBool true));
              ("embedUrl", Some (JStr embedUrl));
              ("ownerId", Some (jstr (ownerId p)));
              ("videoId", Some (jstr (videoId p)));
              ("accessKey", Some (str_or_null accessKey));
              ("title", Some (str_or_null (title video)));
              ("duration", Some (num_or_null (duration video)));
              ("playerUrl", Some (str_or_null (player video)));
              ("source", Some (JStr "vk_api")) ]
      end
  end.

(** [owner_id_video_id] or [owner_id_video_id_access_key] (lines 113-116). *)
Definition videoIdentifier (p : Parsed) : string :=
  let base := tmpl (ownerId p) ++ "_" ++ tmpl (videoId p) in
  if truthy_str (existingAccessKey p) then base ++ "_" ++ tmpl (existingAccessKey p) else base.

Definition vkApiUrl (p : Parsed) (VK_SERVICE_ACCESS_KEY : option string) : string :=
  "https://api.vk.com/method/video.get?videos=" ++ videoIdentifier p
    ++ "&access_token=" ++ tmpl VK_SERVICE_ACCESS_KEY ++ "&v=5.199".

Definition missing_response : Response :=
  json_response 400 [ ("error", Some (JStr "Missing videoUrl parameter")) ].

Definition invalid_response (videoUrl : json) : Response :=
  json_response 400
    [ ("error", Some (JStr "Invalid VK video URL format")); ("originalUrl", Some videoUrl) ].

Definition not_configured_response : Response :=
  json_response 500 [ ("error", Some (JStr "VK API not configured")) ].

Definition internal_error_response (error : string) : Response :=
  json_response 500
    [ ("error", Some (JStr "Internal server error")); ("details", Some (JStr error)) ].

(** The body of the [try] block.  [env] is [Deno.env.get('VK_SERVICE_ACCESS_KEY')]. *)
Definition try_block (env : option string) (req : Request) : eff Response :=
  value <- settle (json_body req) ;;
  videoUrl <- destructure_videoUrl value ;;
  if negb (match videoUrl with Some v => truthy v | None => false end) then
    Pure missing_response
  else
    let videoUrl := match videoUrl with Some v => v | None => JNull end in
    url <- match_receiver videoUrl ;;
    let p := parse url in
    if ids_missing p then Pure (invalid_response videoUrl)
    else if negb (truthy_str env) then Pure not_configured_response
    else
      vkData <- fetch_json (vkApiUrl p env) ;;
      Pure (synthesize p vkData).

Definition handler (env : option string) (req : Request) : eff Response :=
  if String.eqb (method req) "OPTIONS" then
    Pure (mkResponse 200 corsHeaders None)
  else
    try_catch (try_block env req) (fun error => Pure (internal_error_response error)).

(* ================================================================== *)
(** ** Specification vocabulary *)

(** What a pattern denotes: [matches r w cs] when [r] can consume exactly
    [w], capturing [cs].  No priorities here: this is the set of all the
    ways the pattern can match, of which the matcher picks one. *)
Inductive matches : regex -> string -> captures -> Prop :=
| m_eps : matches Eps "" []
| m_atom a c : amatch a c = true -> matches (Atom a) (String c "") []
| m_seq r1 r2 w1 w2 c1 c2 :
    matches r1 w1 c1 -> matches r2 w2 c2 -> matches (Seq r1 r2) (w1 ++ w2) (c1 ++ c2)%list
| m_alt_l r1 r2 w c : matches r1 w c -> matches (Alt r1 r2) w c
| m_alt_r r1 r2 w c : matches r2 w c -> matches (Alt r1 r2) w c
| m_opt_some r w c : matches r w c -> matches (Opt r) w c
| m_opt_none r : matches (Opt r) "" []
| m_star a w : Str.all (amatch a) w = true -> matches (Star a) w []
| m_plus a c w :
    amatch a c = true -> Str.all (amatch a) w = true -> matches (Plus a) (String c w) []
| m_group r w c : matches r w c -> matches (Group r) w (c ++ [w])%list.

(** [x] is [w] up to the case of its letters. *)
Fixpoint eq_ci (x w : string) : bool :=
  match x, w with
  | EmptyString, EmptyString => true
  | String c x', String d w' => Chr.eqb_ci c d && eq_ci x' w'
  | _, _ => false
  end.

(** [s] starts with [w], up to case. *)
Fixpoint starts_ci (w s : string) : bool :=
  match w, s with
  | EmptyString, _ => true
  | String d w', String c s' => Chr.eqb_ci c d && starts_ci w' s'
  | String _ _, EmptyString => false
  end.

(** Where [w] first occurs in [s], up to case. *)
Fixpoint index_ci (w s : string) : option nat :=
  if starts_ci w s then Some 0
  else match s with
       | EmptyString => None
       | String _ s' => option_map S (index_ci w s')
       end.

(** [s] starts with [W], up to case, and goes on with a character that
    satisfies [p]. *)
Fixpoint starts_then (W : string) (p : ascii -> bool) (s : string) : bool :=
  match W, s with
  | EmptyString, String c _ => p c
  | EmptyString, EmptyString => false
  | String d W', String c s' => Chr.eqb_ci c d && starts_then W' p s'
  | String _ _, EmptyString => false
  end.

(** Somewhere in [s], [W] (up to case) is followed by a character that
    satisfies [p]. *)
Fixpoint occurs_then (W : string) (p : ascii -> bool) (s : string) : bool :=
  starts_then W p s ||
  match s with
  | EmptyString => false
  | String _ s' => occurs_then W p s'
  end.

(** What can begin a [<signed int>]. *)
Definition is_sign_or_digit (c : ascii) : bool := Ascii.eqb c "-" || Chr.is_digit c.

(** What may stand between two query parameters, or before the first:
    nothing, or text that ends with [&]. *)
Fixpoint param_start (a : string) : bool :=
  match a with
  | EmptyString => true
  | String c EmptyString => Ascii.eqb c "&"
  | String _ a' => param_start a'
  end.

(** Where the value of a query parameter ends: at the end of the URL, at
    the next [&] or at the fragment. *)
Definition value_end (rest : string) : bool :=
  match rest with
  | EmptyString => true
  | String c _ => Ascii.eqb c "&" || Ascii.eqb c "#"
  end.

Definition nonempty (s : string) : bool :=
  match s with
  | EmptyString => false
  | String _ _ => true
  end.

(** [<int>]: one digit or more. *)
Definition is_digits (s : string) : bool := nonempty s && Str.all Chr.is_digit s.

(** [<signed int>]: an optional minus sign, then one digit or more. *)
Definition is_signed_int (s : string) : bool :=
  match s with
  | String c d => if Ascii.eqb c "-" then is_digits d else is_digits s
  | EmptyString => false
  end.

(** A hexadecimal digit of either case: what [[a-f0-9]] accepts under [i]. *)
Definition is_hex (c : ascii) : bool := amatch hex_class c.

(** [<hex token>]: one hexadecimal digit or more, of either case. *)
Definition is_hex_token (s : string) : bool := nonempty s && Str.all is_hex s.

(** [[a-f0-9]] read without the [i] flag. *)
Definition is_lower_hex (c : ascii) : bool :=
  Chr.in_range "a" "f" c || Chr.in_range "0" "9" c.

(** A string that matches [[a-f0-9]+] as a whole. *)
Definition is_lower_hex_token (s : string) : bool := nonempty s && Str.all is_lower_hex s.

(** No line terminator: what [.*] can run over. *)
Definition same_line (s : string) : bool :=
  Str.all (fun c => negb (Chr.is_line_terminator c)) s.

Definition starts_with (p : ascii -> bool) (s : string) : bool :=
  match s with
  | String c _ => p c
  | EmptyString => false
  end.

(** [[?&]] *)
Definition is_param_sep (c : ascii) : bool := Ascii.eqb c "?" || Ascii.eqb c "&".

Definition has_header (name value : string) (r : Response) : Prop :=
  In (name, value) (headers r).

Definition has_cors (r : Response) : Prop :=
  has_header "Access-Control-Allow-Origin" "*" r /\
  exists v, has_header "Access-Control-Allow-Headers" v r.

(** A property of the body the handler sent. *)
Definition body_field (key : string) (r : Response) : option json :=
  match body r with
  | Some (JObj fields) => lookup key fields
  | _ => None
  end.

(** [url] has an occurrence [w] of a shape. *)
Definition contains (shape : string -> Prop) (url : string) : Prop :=
  exists pre w post, url = pre ++ w ++ post /\ shape w.

(** [video_ext.php?...oid=<signed int>...id=<int>], the [oid] first. *)
Definition ext_shape (O V w : string) : Prop :=
  exists X a M1 b M2,
    w = X ++ a ++ M1 ++ O ++ b ++ M2 ++ V /\
    eq_ci X "video_ext.php?" = true /\ same_line a = true /\
    eq_ci M1 "oid=" = true /\ is_signed_int O = true /\
    same_line b = true /\ eq_ci M2 "id=" = true /\ is_digits V = true.

Definition is_host (h : string) : bool :=
  eq_ci h "vk.com" || eq_ci h "vk.ru" || eq_ci h "vkvideo.ru".

(** [<host>/video<signed int>_<int>] *)
Definition standard_shape (O V w : string) : Prop :=
  exists h M,
    w = h ++ M ++ O ++ "_" ++ V /\
    is_host h = true /\ eq_ci M "/video" = true /\
    is_signed_int O = true /\ is_digits V = true.

(** [video?z=video<signed int>_<int>] *)
Definition z_shape (O V w : string) : Prop :=
  exists M,
    w = M ++ O ++ "_" ++ V /\
    eq_ci M "video?z=video" = true /\ is_signed_int O = true /\ is_digits V = true.

(** [video<signed int>_<int>_<hex token>] *)
Definition key_shape (K w : string) : Prop :=
  exists M O V,
    w = M ++ O ++ "_" ++ V ++ "_" ++ K /\
    eq_ci M "video" = true /\ is_signed_int O = true /\ is_digits V = true /\
    is_hex_token K = true.

(** [url] has an occurrence of the embedded-key shape whose token [K]
    is the whole run of hexadecimal digits there. *)
Definition contains_key_token (K url : string) : Prop :=
  exists pre w post,
    url = pre ++ w ++ post /\ key_shape K w /\ starts_with is_hex post = false.

(** [?hash=<hex token>] or [&hash=<hex token>] *)
Definition hash_shape (K w : string) : Prop :=
  exists sep M,
    w = String sep (M ++ K) /\
    is_param_sep sep = true /\ eq_ci M "hash=" = true /\ is_hex_token K = true.

(** What every state of the three variables satisfies: an identifier
    that is set is a number of the right kind, a key that is set is a
    hexadecimal token. *)
Definition well_formed (p : Parsed) : Prop :=
  (forall o, ownerId p = Some o -> is_signed_int o = true) /\
  (forall v, videoId p = Some v -> is_digits v = true) /\
  (forall k, existingAccessKey p = Some k -> is_hex_token k = true).

(** The [videoUrl] property of the request's JSON body. *)
Definition videoUrl_of (req : Request) : option json :=
  match json_body req with
  | Ok (JObj fields) => lookup "videoUrl" fields
  | _ => None
  end.

(** The embed URL with [hash] spelled out for given identifiers. *)
Definition hash_url (o v k : string) : string :=
  "https://vk.com/video_ext.php?oid=" ++ o ++ "&id=" ++ v ++ "&hash=" ++ k ++ "&hd=2&autoplay=0".

(** The keyless embed URL spelled out for given identifiers. *)
Definition public_url (o v : string) : string :=
  "https://vk.com/video_ext.php?oid=" ++ o ++ "&id=" ++ v ++ "&hd=2&autoplay=0".

(** A URL laid out around the query parameters [oid] and [id] after
    [video_ext.php?]: [X], [M1] and [M2] stand for the three markers in
    whatever case they are written, [a] for the parameters before [oid],
    [b] for those between the two, [rest] for what follows the [id]. *)
Definition ext_param_url (pre X a M1 O b M2 V rest : string) : string :=
  pre ++ X ++ a ++ M1 ++ O ++ "&" ++ b ++ M2 ++ V ++ rest.

(** [v || d] for an optional string [v] and a text [d]. *)
Definition text_or (v : option string) (d : string) : string :=
  match v with
  | Some (String c m) => String c m
  | _ => d
  end.

(** The identifiers after steps 1-3. *)
Definition ids (videoUrl : string) : Parsed :=
  step_z videoUrl (step_standard videoUrl (step_ext videoUrl initial)).

(** The capture of the first [[?&]hash=<hex>] of the URL. *)
Definition hash_param (videoUrl : string) : option string :=
  match js_match hashRe videoUrl with
  | Some m => group m 1
  | None => None
  end.

(** The capture of the first [video<int>_<int>_<hex>] of the URL. *)
Definition path_key (videoUrl : string) : option string :=
  match js_match accessKeyRe videoUrl with
  | Some m => group m 1
  | None => None
  end.

(** The URLs the handler asked the provider for, in order. *)
Fixpoint calls {A : Type} (provider : string -> outcome VKData) (m : eff A) : list string :=
  match m with
  | Pure _ => []
  | Throw _ => []
  | Fetch url k => url :: calls provider (k (provider url))
  end.

(** A URL laid out around one [<host>/video<O>_<V>]. *)
Definition standard_url (pre h M O V rest : string) : string :=
  pre ++ h ++ M ++ O ++ "_" ++ V ++ rest.

(** A URL laid out around one [video?z=video<O>_<V>]. *)
Definition z_url (pre M O V rest : string) : string :=
  pre ++ M ++ O ++ "_" ++ V ++ rest.

(** A URL laid out around one [video<O>_<V>_<K>]. *)
Definition key_url (pre M O V K rest : string) : string :=
  pre ++ M ++ O ++ "_" ++ V ++ "_" ++ K ++ rest.

(** A URL laid out around one [?hash=<K>] or [&hash=<K>]. *)
Definition hash_url_of (pre : string) (sep : ascii) (M K rest : string) : string :=
  pre ++ String sep (M ++ K ++ rest).

(** [o] is a piece of [url]. *)
Definition occurs_in (o url : string) : Prop := exists a b, url = a ++ o ++ b.

(** The three kinds of answer the handler gives. *)
Definition is_preflight_answer (r : Response) : Prop :=
  status r = 200 /\ body r = None.

Definition is_success (r : Response) : Prop :=
  status r = 200 /\
  body_field "success" r = Some (JBool true) /\
  (exists e, body_field "embedUrl" r = Some (JStr e)) /\
  body_field "error" r = None.

Definition is_failure (r : Response) : Prop :=
  (status r = 400 \/ status r = 404 \/ status r = 500) /\
  (exists msg, body_field "error" r = Some (JStr msg)) /\
  body_field "success" r = None /\
  body_field "embedUrl" r = None.

(** [embedUrl] after the three rewrites of the player branch. *)
Definition normalised (embedUrl : string) : Prop :=
  String.prefix "http:" embedUrl = false /\
  Str.includes "hd=" embedUrl = true /\
  Str.includes "autoplay=" embedUrl = true.

(* ================================================================== *)
(** ** The parser on the URLs of the handler's own comment *)

Example parse_canonical :
  parse "https://vk.com/video-123456789_456239017"
  = mkParsed (Some "-123456789") (Some "456239017") None.
Proof. reflexivity. Qed.

Example parse_vkvideo :
  parse "https://vkvideo.ru/video-123456789_456239017"
  = mkParsed (Some "-123456789") (Some "456239017") None.
Proof. reflexivity. Qed.

Example parse_redirect :
  parse "https://vk.com/video?z=video-999_111" = mkParsed (Some "-999") (Some "111") None.
Proof. reflexivity. Qed.

Example parse_ext_with_hash :
  parse "https://vk.com/video_ext.php?oid=-123456789&id=456239017&hash=abc123"
  = mkParsed (Some "-123456789") (Some "456239017") (Some "abc123").
Proof. reflexivity. Qed.

Example parse_path_key :
  parse "https://vk.com/video-123456789_456239017_deadbeef"
  = mkParsed (Some "-123456789") (Some "456239017") (Some "deadbeef").
Proof. reflexivity. Qed.

Example parse_unrecognised : parse "https://example.com/watch?id=1" = initial.
Proof. reflexivity. Qed.

(** The greedy [.*] makes the pattern settle on the last [id=] followed by
    a digit, here the one inside [vid=3]. *)
Example parse_ext_last_id :
  parse "https://vk.com/video_ext.php?oid=1&id=2&vid=3" = mkParsed (Some "1") (Some "3") None.
Proof. reflexivity. Qed.

(* ================================================================== *)
(** ** Strings: basic facts *)

Module StrFacts.

Lemma append_assoc (a b c : string) : (a ++ b) ++ c = a ++ (b ++ c).
Proof. induction a as [|x a IH]; simpl; [reflexivity | now rewrite IH]. Qed.

Lemma length_append (a b : string) :
  String.length (a ++ b) = String.length a + String.length b.
Proof. induction a as [|x a IH]; simpl; [reflexivity | now rewrite IH]. Qed.

Lemma take_length_append (w s : string) : Str.take (String.length w) (w ++ s) = w.
Proof. induction w as [|c w IH]; simpl; [now destruct s | now rewrite IH]. Qed.

Lemma between_append (w s : string) : Str.between (w ++ s) s = w.
Proof.
  unfold Str.between. rewrite length_append.
  replace (String.length w + String.length s - String.length s)
    with (String.length w) by lia.
  apply take_length_append.
Qed.

End StrFacts.

Import StrFacts.

(* ================================================================== *)
(** ** The matcher against what a pattern denotes *)

Section MatcherFacts.
Variable A : Type.
Implicit Types (k : string -> captures -> option A) (j : string -> option A).

(** Whatever the greedy loop returns was accepted by the continuation
    after a run of matching code units. *)
Lemma star_sound a s j res :
  star a s j = Some res ->
  exists w s', s = w ++ s' /\ Str.all (amatch a) w = true /\ j s' = Some res.
Proof.
  induction s as [|c s IH]; simpl; intros H.
  - exists "", "". auto.
  - destruct (amatch a c) eqn:Hc.
    + destruct (star a s j) as [r|] eqn:Hs.
      * injection H as ->.
        destruct (IH eq_refl) as (w & s' & -> & Hw & Hj).
        exists (String c w), s'. simpl. rewrite Hc, Hw. auto.
      * exists "", (String c s). auto.
    + exists "", (String c s). auto.
Qed.

(** The loop finds a result whenever the continuation accepts somewhere
    after a run of matching code units. *)
Lemma star_complete a w s' j res :
  Str.all (amatch a) w = true -> j s' = Some res ->
  exists res', star a (w ++ s') j = Some res'.
Proof.
  induction w as [|c w IH]; simpl; intros Hw Hj.
  - destruct s' as [|d s']; simpl; eauto.
    destruct (amatch a d); eauto.
    destruct (star a s' j); eauto.
  - apply andb_true_iff in Hw as [Hc Hw]. rewrite Hc.
    destruct (IH Hw Hj) as [r ->]. eauto.
Qed.

(** Greedy: over a run of matching code units the longer match is
    preferred. *)
Lemma star_skip a u t j res :
  Str.all (amatch a) u = true -> star a t j = Some res ->
  star a (u ++ t) j = Some res.
Proof.
  induction u as [|c u IH]; simpl; intros Hu Ht; [assumption|].
  apply andb_true_iff in Hu as [Hc Hu]. now rewrite Hc, (IH Hu Ht).
Qed.

(** A continuation that refuses every position makes the loop fail. *)
Lemma star_none a s j :
  (forall u v, s = u ++ v -> j v = None) -> star a s j = None.
Proof.
  induction s as [|c s IH]; simpl; intros H.
  - apply (H "" ""). reflexivity.
  - rewrite IH.
    + rewrite (H "" (String c s) eq_refl). now destruct (amatch a c).
    + intros u v ->. apply (H (String c u) v). reflexivity.
Qed.

(** The loop stops at the last position the continuation accepts. *)
Lemma star_last a c s j :
  (forall u v, s = u ++ v -> j v = None) ->
  star a (String c s) j = j (String c s).
Proof.
  intros H. simpl. rewrite star_none by assumption. now destruct (amatch a c).
Qed.

(** Maximal munch: the loop takes the whole run when the continuation
    accepts right after it. *)
Lemma star_max a u t j res :
  Str.all (amatch a) u = true -> starts_with (amatch a) t = false ->
  j t = Some res -> star a (u ++ t) j = Some res.
Proof.
  intros Hu Ht Hj. apply star_skip; [assumption|].
  destruct t as [|c t]; simpl in *; [assumption | now rewrite Ht].
Qed.

Theorem run_sound r : forall s cs k res,
  run r s cs k = Some res ->
  exists w s' c, s = w ++ s' /\ matches r w c /\ k s' (cs ++ c)%list = Some res.
Proof.
  induction r as [| a | r1 IH1 r2 IH2 | r1 IH1 r2 IH2 | r1 IH1 | a | a | r1 IH1];
    simpl; intros s cs k res H.
  - exists "", s, []. rewrite app_nil_r. repeat split; [constructor | assumption].
  - destruct s as [|c s]; [discriminate|].
    destruct (amatch a c) eqn:Hc; [|discriminate].
    exists (String c ""), s, []. rewrite app_nil_r.
    repeat split; [now constructor | assumption].
  - apply IH1 in H as (w1 & s1 & c1 & -> & M1 & H).
    apply IH2 in H as (w2 & s2 & c2 & -> & M2 & H).
    exists (w1 ++ w2), s2, (c1 ++ c2)%list.
    rewrite append_assoc, app_assoc. repeat split; [now constructor | assumption].
  - destruct (run r1 s cs k) as [x|] eqn:H1.
    + injection H as <-. apply IH1 in H1 as (w & s' & c & -> & M & H).
      exists w, s', c. repeat split; [now apply m_alt_l | assumption].
    + apply IH2 in H as (w & s' & c & -> & M & H).
      exists w, s', c. repeat split; [now apply m_alt_r | assumption].
  - destruct (run r1 s cs k) as [x|] eqn:H1.
    + injection H as <-. apply IH1 in H1 as (w & s' & c & -> & M & H).
      exists w, s', c. repeat split; [now apply m_opt_some | assumption].
    + exists "", s, []. rewrite app_nil_r. repeat split; [apply m_opt_none | assumption].
  - apply star_sound in H as (w & s' & -> & Hw & H).
    exists w, s', []. rewrite app_nil_r. repeat split; [now constructor | assumption].
  - destruct s as [|c s]; [discriminate|].
    destruct (amatch a c) eqn:Hc; [|discriminate].
    apply star_sound in H as (w & s' & -> & Hw & H).
    exists (String c w), s', []. rewrite app_nil_r.
    repeat split; [now constructor | assumption].
  - apply IH1 in H as (w & s' & c & -> & M & H).
    rewrite between_append, <- app_assoc in H.
    exists w, s', (c ++ [w])%list. repeat split; [now constructor | assumption].
Qed.

Theorem run_complete r w c :
  matches r w c ->
  forall s' cs k res, k s' (cs ++ c)%list = Some res ->
  exists res', run r (w ++ s') cs k = Some res'.
Proof.
  induction 1 as [| a x Hx | r1 r2 w1 w2 c1 c2 _ IH1 _ IH2 | r1 r2 w c _ IH
                  | r1 r2 w c _ IH | r w c _ IH | r | a w Hw | a x w Hx Hw | r w c _ IH];
    intros s' cs k res Hk; simpl.
  - rewrite app_nil_r in Hk. eauto.
  - rewrite Hx. rewrite app_nil_r in Hk. eauto.
  - rewrite append_assoc. rewrite app_assoc in Hk.
    destruct (IH2 _ _ _ _ Hk) as [res2 H2].
    exact (IH1 (w2 ++ s') cs (fun s1 cs1 => run r2 s1 cs1 k) res2 H2).
  - destruct (IH _ _ _ _ Hk) as [r' ->]. eauto.
  - destruct (run r1 (w ++ s') cs k); eauto.
  - destruct (IH _ _ _ _ Hk) as [r' ->]. eauto.
  - rewrite app_nil_r in Hk. destruct (run r s' cs k); eauto.
  - rewrite app_nil_r in Hk.
    exact (star_complete a w s' (fun s'' => k s'' cs) Hw Hk).
  - rewrite Hx. rewrite app_nil_r in Hk.
    exact (star_complete a w s' (fun s'' => k s'' cs) Hw Hk).
  - apply (IH s' cs (fun s1 cs1 => k s1 (cs1 ++ [Str.between (w ++ s') s1])%list) res).
    now rewrite between_append, <- app_assoc.
Qed.

End MatcherFacts.

(** A match that [String.prototype.match] reports is one of the matches of
    the pattern, somewhere in the string. *)
Theorem js_match_sound r : forall s m,
  js_match r s = Some m ->
  exists pre w post c, s = pre ++ w ++ post /\ matches r w c /\ m = w :: c.
Proof.
  induction s as [|x s IH]; simpl; intros m H.
  - destruct (match_here r "") as [m'|] eqn:Hm; [|discriminate].
    injection H as <-. apply run_sound in Hm as (w & s' & c & E & M & Hm).
    rewrite E, between_append in Hm. injection Hm as <-.
    exists "", w, s', c. auto.
  - destruct (match_here r (String x s)) as [m'|] eqn:Hm.
    + injection H as <-. apply run_sound in Hm as (w & s' & c & E & M & Hm).
      rewrite E, between_append in Hm. injection Hm as <-.
      exists "", w, s', c. auto.
    + apply IH in H as (pre & w & post & c & -> & M & ->).
      exists (String x pre), w, post, c. auto.
Qed.

Lemma js_match_here r s m : match_here r s = Some m -> js_match r s = Some m.
Proof. intros H. destruct s; simpl; now rewrite H. Qed.

(** [match] skips the start positions at which the pattern fails. *)
Lemma js_match_skip r x s : match_here r (String x s) = None ->
  js_match r (String x s) = js_match r s.
Proof. intros H. simpl. now rewrite H. Qed.

(** Whenever the pattern matches somewhere, [match] reports a match. *)
Theorem js_match_complete r pre w post c :
  matches r w c -> exists m, js_match r (pre ++ w ++ post) = Some m.
Proof.
  intros M. induction pre as [|x pre IH]; simpl.
  - destruct (run_complete M post [] (fun s' cs => Some (Str.between (w ++ post) s' :: cs))
                eq_refl) as [m Hm].
    exists m. now apply js_match_here.
  - destruct (match_here r (String x (pre ++ w ++ post))); eauto.
Qed.

(* ================================================================== *)
(** ** Characters *)

Module ChrFacts.

Ltac by_cases c :=
  destruct c as [[] [] [] [] [] [] [] []]; try discriminate; try reflexivity.

Lemma eqb_ci_minus c : Chr.eqb_ci c "-" = true -> c = "-"%char.
Proof. by_cases c. Qed.

Lemma eqb_ci_underscore c : Chr.eqb_ci c "_" = true -> c = "_"%char.
Proof. by_cases c. Qed.

Lemma digit_not_minus c : Chr.is_digit c = true -> Ascii.eqb c "-" = false.
Proof. by_cases c. Qed.

Lemma lower_hex_is_hex c : is_lower_hex c = true -> is_hex c = true.
Proof. by_cases c. Qed.

(** What the class accepts, spelled out. *)
Lemma is_hex_spec c :
  is_hex c = Chr.is_digit c || Chr.in_range "a" "f" c || Chr.in_range "A" "F" c.
Proof. by_cases c. Qed.

Lemma is_param_sep_spec c : amatch (Class [One "?"; One "&"]) c = is_param_sep c.
Proof. by_cases c. Qed.

Lemma eqb_ci_neq c d e :
  Chr.eqb_ci c d = true -> Chr.eqb_ci d e = false -> Chr.eqb_ci c e = false.
Proof. unfold Chr.eqb_ci. now intros ->%Ascii.eqb_eq. Qed.

Lemma sep_not_digit c : Ascii.eqb c "&" || Ascii.eqb c "#" = true -> Chr.is_digit c = false.
Proof. by_cases c. Qed.

End ChrFacts.

(* ================================================================== *)
(** ** What each pattern denotes *)

Module Shape.

Lemma seq_inv r1 r2 w c : matches (Seq r1 r2) w c ->
  exists w1 w2 c1 c2, w = w1 ++ w2 /\ c = (c1 ++ c2)%list /\ matches r1 w1 c1 /\ matches r2 w2 c2.
Proof. inversion 1; subst. eauto 10. Qed.

Lemma group_inv r w c : matches (Group r) w c ->
  exists c1, c = (c1 ++ [w])%list /\ matches r w c1.
Proof. inversion 1; subst. eauto. Qed.

Lemma alt_inv r1 r2 w c : matches (Alt r1 r2) w c -> matches r1 w c \/ matches r2 w c.
Proof. inversion 1; subst; auto. Qed.

Lemma atom_inv a w c : matches (Atom a) w c ->
  exists x, w = String x "" /\ c = [] /\ amatch a x = true.
Proof. inversion 1; subst. eauto. Qed.

Lemma plus_iff a w c : matches (Plus a) w c <->
  nonempty w && Str.all (amatch a) w = true /\ c = [].
Proof.
  split.
  - inversion 1; subst. simpl. split; [|reflexivity]. now apply andb_true_iff.
  - intros [H ->]. destruct w as [|x w]; [discriminate|].
    simpl in H. apply andb_true_iff in H as [Hx Hw]. now constructor.
Qed.

Lemma star_iff a w c : matches (Star a) w c <-> Str.all (amatch a) w = true /\ c = [].
Proof.
  split.
  - inversion 1; subst. auto.
  - intros [H ->]. now constructor.
Qed.

(** A run of literals denotes the strings equal to it up to case. *)
Lemma lit_iff W : forall w c, matches (lit W) w c <-> eq_ci w W = true /\ c = [].
Proof.
  induction W as [|d W IH]; simpl; intros w c; split.
  - inversion 1; subst. auto.
  - intros [H ->]. destruct w; [constructor | discriminate].
  - intros H. apply seq_inv in H as (w1 & w2 & c1 & c2 & -> & -> & H1 & H2).
    apply atom_inv in H1 as (x & -> & -> & Hx). apply IH in H2 as [H2 ->].
    simpl in *. now rewrite Hx, H2.
  - intros [H ->]. destruct w as [|x w]; [discriminate|].
    apply andb_true_iff in H as [Hx Hw].
    change (String x w) with (String x "" ++ w). change (@nil string) with (@nil string ++ [])%list.
    constructor; [now constructor | now apply IH].
Qed.

Lemma digits1_iff w c : matches digits1 w c <-> is_digits w = true /\ c = [].
Proof. apply plus_iff. Qed.

Lemma hex_iff w c : matches (Plus hex_class) w c <-> is_hex_token w = true /\ c = [].
Proof. apply plus_iff. Qed.

Lemma signed_int_iff w c : matches signed_int w c <-> is_signed_int w = true /\ c = [].
Proof.
  unfold signed_int. split.
  - intros H. apply seq_inv in H as (w1 & w2 & c1 & c2 & -> & -> & H1 & H2).
    apply digits1_iff in H2 as [H2 ->]. inversion H1; subst.
    + match goal with M : matches (Atom _) _ _ |- _ =>
        apply atom_inv in M as (x & -> & -> & Hx) end.
      apply ChrFacts.eqb_ci_minus in Hx as ->. simpl. auto.
    + simpl. split; [|reflexivity]. destruct w2 as [|x w2]; [discriminate|].
      unfold is_signed_int. unfold is_digits in H2. simpl in H2.
      apply andb_true_iff in H2 as [Hx Hw].
      rewrite (ChrFacts.digit_not_minus _ Hx). unfold is_digits. simpl. now rewrite Hx, Hw.
  - intros [H ->]. destruct w as [|x w]; [discriminate|]. unfold is_signed_int in H.
    destruct (Ascii.eqb x "-") eqn:Hx.
    + apply Ascii.eqb_eq in Hx as ->.
      change (String "-" w) with (String "-" "" ++ w).
      change (@nil string) with (@nil string ++ [])%list.
      constructor; [|now apply digits1_iff].
      apply m_opt_some. now constructor.
    + change (String x w) with ("" ++ String x w).
      change (@nil string) with (@nil string ++ [])%list.
      constructor; [apply m_opt_none | now apply digits1_iff].
Qed.

Lemma seq_nil r1 r2 w1 w2 c :
  matches r1 w1 [] -> matches r2 w2 c -> matches (Seq r1 r2) (w1 ++ w2) c.
Proof. intros H1 H2. exact (m_seq H1 H2). Qed.

Lemma seq_one r1 r2 w1 w2 x c :
  matches r1 w1 [x] -> matches r2 w2 c -> matches (Seq r1 r2) (w1 ++ w2) (x :: c).
Proof. intros H1 H2. exact (m_seq H1 H2). Qed.

Lemma group_nil r w : matches r w [] -> matches (Group r) w [w].
Proof. intros H. exact (m_group H). Qed.

Lemma eq_ci_underscore U : eq_ci U "_" = true -> U = "_".
Proof.
  destruct U as [|c [|d U]]; try discriminate.
  - simpl. rewrite andb_true_r. now intros ->%ChrFacts.eqb_ci_underscore.
  - simpl. now rewrite andb_false_r.
Qed.

Lemma host_iff w c :
  matches (Alt (lit "vk.com") (Alt (lit "vk.ru") (lit "vkvideo.ru"))) w c <->
  is_host w = true /\ c = [].
Proof.
  unfold is_host. split.
  - intros H. apply alt_inv in H as [H|H]; [|apply alt_inv in H as [H|H]];
      apply lit_iff in H as [-> ->]; rewrite ?orb_true_r; auto.
  - intros [H ->]. apply orb_true_iff in H as [H|H]; [apply orb_true_iff in H as [H|H]|].
    + apply m_alt_l. now apply lit_iff.
    + apply m_alt_r, m_alt_l. now apply lit_iff.
    + apply m_alt_r, m_alt_r. now apply lit_iff.
Qed.

(** Takes a hypothesis [matches r w c] on one of the handler's patterns
    apart into its pieces. *)
Ltac pieces :=
  repeat match goal with
  | H : matches (Seq _ _) _ _ |- _ =>
      let w1 := fresh "w" in let w2 := fresh "w" in
      let c1 := fresh "c" in let c2 := fresh "c" in
      let H1 := fresh "H" in
      apply seq_inv in H as (w1 & w2 & c1 & c2 & -> & -> & H1 & H)
  | H : matches (Group _) _ _ |- _ =>
      let c1 := fresh "c" in apply group_inv in H as (c1 & -> & H)
  | H : matches (lit _) _ _ |- _ => apply lit_iff in H as [H ->]
  | H : matches signed_int _ _ |- _ => apply signed_int_iff in H as [H ->]
  | H : matches digits1 _ _ |- _ => apply digits1_iff in H as [H ->]
  | H : matches (Plus hex_class) _ _ |- _ => apply hex_iff in H as [H ->]
  | H : matches (Star _) _ _ |- _ => apply star_iff in H as [H ->]
  | H : matches (Alt _ _) _ _ |- _ => apply host_iff in H as [H ->]
  | H : matches (Atom _) _ _ |- _ =>
      let x := fresh "x" in apply atom_inv in H as (x & -> & -> & H)
  | H : eq_ci _ "_" = true |- _ => apply eq_ci_underscore in H as ->
  end.

Theorem ext_iff w c :
  matches extRe w c <-> exists O V, c = [O; V] /\ ext_shape O V w.
Proof.
  unfold extRe, ext_shape. split.
  - intros H. pieces. simpl. eauto 20.
  - intros (O & V & -> & X & a & M1 & b & M2 & -> & HX & Ha & HM1 & HO & Hb & HM2 & HV).
    apply seq_nil; [now apply lit_iff|].
    apply seq_nil; [now apply star_iff|].
    apply seq_nil; [now apply lit_iff|].
    apply seq_one; [now apply group_nil, signed_int_iff|].
    apply seq_nil; [now apply star_iff|].
    apply seq_nil; [now apply lit_iff|].
    now apply group_nil, digits1_iff.
Qed.

Theorem standard_iff w c :
  matches standardRe w c <-> exists O V, c = [O; V] /\ standard_shape O V w.
Proof.
  unfold standardRe, standard_shape. split.
  - intros H. pieces. simpl. eauto 20.
  - intros (O & V & -> & h & M & -> & Hh & HM & HO & HV).
    apply seq_nil; [now apply host_iff|].
    apply seq_nil; [now apply lit_iff|].
    apply seq_one; [now apply group_nil, signed_int_iff|].
    apply seq_nil; [now apply lit_iff|].
    now apply group_nil, digits1_iff.
Qed.

Theorem z_iff w c :
  matches zRe w c <-> exists O V, c = [O; V] /\ z_shape O V w.
Proof.
  unfold zRe, z_shape. split.
  - intros H. pieces. simpl. eauto 20.
  - intros (O & V & -> & M & -> & HM & HO & HV).
    apply seq_nil; [now apply lit_iff|].
    apply seq_one; [now apply group_nil, signed_int_iff|].
    apply seq_nil; [now apply lit_iff|].
    now apply group_nil, digits1_iff.
Qed.

Theorem key_iff w c :
  matches accessKeyRe w c <-> exists K, c = [K] /\ key_shape K w.
Proof.
  unfold accessKeyRe, key_shape. split.
  - intros H. pieces. simpl. eauto 20.
  - intros (K & -> & M & O & V & -> & HM & HO & HV & HK).
    apply seq_nil; [now apply lit_iff|].
    apply seq_nil; [now apply signed_int_iff|].
    apply seq_nil; [now apply lit_iff|].
    apply seq_nil; [now apply digits1_iff|].
    apply seq_nil; [now apply lit_iff|].
    now apply group_nil, hex_iff.
Qed.

Theorem hash_iff w c :
  matches hashRe w c <-> exists K, c = [K] /\ hash_shape K w.
Proof.
  unfold hashRe, hash_shape. split.
  - intros H. pieces. rewrite ChrFacts.is_param_sep_spec in *. simpl. eauto 20.
  - intros (K & -> & sep & M & -> & Hs & HM & HK).
    change (String sep (M ++ K)) with (String sep "" ++ M ++ K).
    apply seq_nil; [constructor; now rewrite ChrFacts.is_param_sep_spec|].
    apply seq_nil; [now apply lit_iff|].
    now apply group_nil, hex_iff.
Qed.

End Shape.

(* ================================================================== *)
(** ** Which match the matcher picks *)

Section Priorities.
Variable A : Type.
Implicit Types (k : string -> captures -> option A).

Lemma run_lit_ok W : forall X s cs k,
  eq_ci X W = true -> run (lit W) (X ++ s) cs k = k s cs.
Proof.
  induction W as [|d W IH]; intros [|x X] s cs k H; simpl in *; try discriminate.
  - reflexivity.
  - apply andb_true_iff in H as [Hx HX]. rewrite Hx. now apply IH.
Qed.

Lemma run_lit_fail W : forall s cs k,
  starts_ci W s = false -> run (lit W) s cs k = None.
Proof.
  induction W as [|d W IH]; intros [|x s] cs k H; simpl in *; try discriminate.
  - reflexivity.
  - destruct (Chr.eqb_ci x d); simpl in H; [now apply IH | reflexivity].
Qed.

Lemma run_seq_lit_ok W r X s cs k :
  eq_ci X W = true -> run (Seq (lit W) r) (X ++ s) cs k = run r s cs k.
Proof. intros H. simpl. now rewrite run_lit_ok. Qed.

Lemma run_seq_lit_fail W r s cs k :
  starts_ci W s = false -> run (Seq (lit W) r) s cs k = None.
Proof. intros H. simpl. now rewrite run_lit_fail. Qed.

(** [(\d+)] takes the whole run of digits when what follows accepts. *)
Lemma run_group_digits V T cs k res :
  is_digits V = true -> starts_with Chr.is_digit T = false ->
  k T (cs ++ [V])%list = Some res ->
  run (Group digits1) (V ++ T) cs k = Some res.
Proof.
  intros HV HT Hk. destruct V as [|x V]; [discriminate|].
  unfold is_digits in HV. simpl in HV. apply andb_true_iff in HV as [Hx HV].
  simpl. rewrite Hx.
  apply star_max; [exact HV | exact HT |].
  change (String x (V ++ T)) with (String x V ++ T). now rewrite between_append.
Qed.

(** [(-?\d+)] takes the sign and the whole run of digits when what
    follows accepts. *)
Lemma run_group_signed O T cs k res :
  is_signed_int O = true -> starts_with Chr.is_digit T = false ->
  k T (cs ++ [O])%list = Some res ->
  run (Group signed_int) (O ++ T) cs k = Some res.
Proof.
  intros HO HT Hk. destruct O as [|x O]; [discriminate|].
  unfold is_signed_int in HO. destruct (Ascii.eqb x "-") eqn:Hx.
  - apply Ascii.eqb_eq in Hx as ->.
    destruct O as [|y O]; [discriminate|].
    unfold is_digits in HO. simpl in HO. apply andb_true_iff in HO as [Hy HO].
    simpl. rewrite Hy.
    rewrite (@star_max A Digit O T _ res); [reflexivity | exact HO | exact HT |].
    change (String "-" (String y (O ++ T))) with (String "-" (String y O) ++ T).
    now rewrite between_append.
  - unfold is_digits in HO. simpl in HO. apply andb_true_iff in HO as [Hx' HO].
    simpl. replace (Chr.eqb_ci x "-") with false.
    + rewrite Hx'. apply star_max; [exact HO | exact HT |].
      change (String x (O ++ T)) with (String x O ++ T). now rewrite between_append.
    + symmetry. destruct (Chr.eqb_ci x "-") eqn:E; [|reflexivity].
      apply ChrFacts.eqb_ci_minus in E. subst x. discriminate.
Qed.

End Priorities.

(** Before the first occurrence of the literal a pattern begins with,
    there is no start position to stop at. *)
Lemma js_match_first W r pre : forall s,
  index_ci W (pre ++ s) = Some (String.length pre) ->
  js_match (Seq (lit W) r) (pre ++ s) = js_match (Seq (lit W) r) s.
Proof.
  induction pre as [|x pre IH]; intros s H; [reflexivity|].
  cbn [append String.length index_ci] in H.
  destruct (starts_ci W (String x (pre ++ s))) eqn:E; [discriminate|].
  destruct (index_ci W (pre ++ s)) as [n|] eqn:En; [|discriminate].
  injection H as ->.
  cbn [append]. rewrite js_match_skip.
  - now apply IH.
  - unfold match_here. now apply run_seq_lit_fail.
Qed.

(* ================================================================== *)
(** ** What [match] finds for each of the handler's patterns *)

Lemma found2 r (sh : string -> string -> string -> Prop) :
  (forall w c, matches r w c <-> exists O V, c = [O; V] /\ sh O V w) ->
  forall url m, js_match r url = Some m ->
  exists w O V, m = [w; O; V] /\ sh O V w /\ contains (sh O V) url.
Proof.
  intros Hr url m H.
  apply js_match_sound in H as (pre & w & post & c & -> & M & ->).
  apply Hr in M as (O & V & -> & Hs).
  exists w, O, V. repeat split; [assumption|]. now exists pre, w, post.
Qed.

Lemma found1 r (sh : string -> string -> Prop) :
  (forall w c, matches r w c <-> exists K, c = [K] /\ sh K w) ->
  forall url m, js_match r url = Some m ->
  exists w K, m = [w; K] /\ sh K w /\ contains (sh K) url.
Proof.
  intros Hr url m H.
  apply js_match_sound in H as (pre & w & post & c & -> & M & ->).
  apply Hr in M as (K & -> & Hs).
  exists w, K. repeat split; [assumption|]. now exists pre, w, post.
Qed.

Lemma finds1 r (sh : string -> string -> Prop) :
  (forall w c, matches r w c <-> exists K, c = [K] /\ sh K w) ->
  forall url K, contains (sh K) url -> exists m, js_match r url = Some m.
Proof.
  intros Hr url K (pre & w & post & -> & Hs).
  apply js_match_complete with (c := [K]). apply Hr. eauto.
Qed.

Arguments found1 {r sh} _ {url m} _.
Arguments found2 {r sh} _ {url m} _.
Arguments finds1 {r sh} _ {url K} _.

Lemma ext_shape_numbers O V w :
  ext_shape O V w -> is_signed_int O = true /\ is_digits V = true.
Proof. intros (X & a & M1 & b & M2 & _ & _ & _ & _ & HO & _ & _ & HV). auto. Qed.

Lemma standard_shape_numbers O V w :
  standard_shape O V w -> is_signed_int O = true /\ is_digits V = true.
Proof. intros (h & M & _ & _ & _ & HO & HV). auto. Qed.

Lemma z_shape_numbers O V w :
  z_shape O V w -> is_signed_int O = true /\ is_digits V = true.
Proof. intros (M & _ & _ & HO & HV). auto. Qed.

Lemma key_shape_token K w : key_shape K w -> is_hex_token K = true.
Proof. intros (M & O & V & _ & _ & _ & _ & HK). exact HK. Qed.

Lemma hash_shape_token K w : hash_shape K w -> is_hex_token K = true.
Proof. intros (sep & M & _ & _ & _ & HK). exact HK. Qed.

Lemma hash_param_some url K :
  hash_param url = Some K -> contains (hash_shape K) url.
Proof.
  unfold hash_param. destruct (js_match hashRe url) as [m|] eqn:E; [|discriminate].
  apply (found1 Shape.hash_iff) in E as (w & K' & -> & _ & H).
  simpl. now intros [= <-].
Qed.

Lemma hash_param_finds url K0 :
  contains (hash_shape K0) url -> exists K, hash_param url = Some K.
Proof.
  intros H. unfold hash_param.
  destruct (finds1 Shape.hash_iff H) as [m E]. rewrite E.
  apply (found1 Shape.hash_iff) in E as (w & K & -> & _). now exists K.
Qed.

Lemma path_key_finds url K0 :
  contains (key_shape K0) url -> exists K, path_key url = Some K.
Proof.
  intros H. unfold path_key.
  destruct (finds1 Shape.key_iff H) as [m E]. rewrite E.
  apply (found1 Shape.key_iff) in E as (w & K & -> & _). now exists K.
Qed.

(** The token the path pattern captures is a whole run of hexadecimal
    digits: greedy, and nothing after it in the pattern to give way to. *)
Lemma star_total_max (A : Type) a s (j : string -> option A) res :
  (forall s', j s' <> None) -> star a s j = Some res ->
  exists w s', s = w ++ s' /\ Str.all (amatch a) w = true /\
               starts_with (amatch a) s' = false /\ j s' = Some res.
Proof.
  intros Hj. induction s as [|c s IH]; simpl; intros H.
  - exists "", "". auto.
  - destruct (amatch a c) eqn:Hc.
    + destruct (star a s j) as [r|] eqn:Hs.
      * injection H as ->. destruct (IH eq_refl) as (w & s' & -> & Hw & Hs' & Hr).
        exists (String c w), s'. simpl. rewrite Hc, Hw. auto.
      * exfalso. destruct (j s) as [r|] eqn:Ej; [|now apply (Hj s)].
        destruct (star_complete a "" s j eq_refl Ej) as [r' Hr']. simpl in Hr'. congruence.
    + exists "", (String c s). simpl. auto.
Qed.

Lemma run_seq_sound (A : Type) r1 r2 s cs (k : string -> captures -> option A) res :
  run (Seq r1 r2) s cs k = Some res ->
  exists w s' c, s = w ++ s' /\ matches r1 w c /\ run r2 s' (cs ++ c)%list k = Some res.
Proof. intros H. simpl in H. now apply run_sound in H. Qed.

Lemma key_here_max s m :
  match_here accessKeyRe s = Some m ->
  exists w K post, s = w ++ post /\ m = [w; K] /\ key_shape K w /\
                   starts_with is_hex post = false.
Proof.
  unfold match_here, accessKeyRe. intros H.
  apply run_seq_sound in H as (w1 & s1 & c1 & -> & M1 & H).
  apply run_seq_sound in H as (w2 & s2 & c2 & -> & M2 & H).
  apply run_seq_sound in H as (w3 & s3 & c3 & -> & M3 & H).
  apply run_seq_sound in H as (w4 & s4 & c4 & -> & M4 & H).
  apply run_seq_sound in H as (w5 & s5 & c5 & -> & M5 & H).
  Shape.pieces. cbn [run app] in H.
  destruct s5 as [|x s5]; [discriminate|].
  destruct (amatch hex_class x) eqn:Hx; [|discriminate].
  apply star_total_max in H as (K & post & -> & HK & Hpost & H); [|intros ?; discriminate].

  change (String x (K ++ post)) with (String x K ++ post) in H.
  rewrite between_append in H.
  rewrite <- !append_assoc in H. rewrite between_append in H. injection H as <-.
  exists (w1 ++ w2 ++ "_" ++ w4 ++ "_" ++ String x K), (String x K), post.
  repeat split.
  - now rewrite !append_assoc.
  - now rewrite !append_assoc.
  - exists w1, w2, w4. repeat split; try assumption.
    unfold is_hex_token. cbn [nonempty Str.all andb].
    change (is_hex x) with (amatch hex_class x). rewrite Hx. exact HK.
  - exact Hpost.
Qed.

Lemma path_key_max url K :
  path_key url = Some K -> contains_key_token K url.
Proof.
  unfold path_key.
  induction url as [|x url IH]; cbn [js_match].
  - destruct (match_here accessKeyRe "") as [m|] eqn:E; [|discriminate].
    apply key_here_max in E as (w & K' & post & E & -> & Hs & Hp).
    simpl. intros [= <-]. exists "", w, post. auto.
  - destruct (match_here accessKeyRe (String x url)) as [m|] eqn:E.
    + apply key_here_max in E as (w & K' & post & E & -> & Hs & Hp).
      simpl. intros [= <-]. exists "", w, post. auto.
    + intros H. destruct (IH H) as (pre & w & post & -> & Hs & Hp).
      exists (String x pre), w, post. auto.
Qed.

(* ================================================================== *)
(** ** The parser's invariant *)

Lemma truthy_nonempty s : truthy_str (Some s) = nonempty s.
Proof. now destruct s. Qed.

Lemma digits_nonempty s : is_digits s = true -> nonempty s = true.
Proof. unfold is_digits. now intros [H _]%andb_true_iff. Qed.

Lemma signed_nonempty s : is_signed_int s = true -> nonempty s = true.
Proof. now destruct s. Qed.

Lemma token_nonempty s : is_hex_token s = true -> nonempty s = true.
Proof. unfold is_hex_token. now intros [H _]%andb_true_iff. Qed.

Lemma wf_initial : well_formed initial.
Proof. repeat split; discriminate. Qed.

Lemma wf_set_ids p w O V :
  is_signed_int O = true /\ is_digits V = true -> well_formed p ->
  well_formed (mkParsed (group [w; O; V] 1) (group [w; O; V] 2) (existingAccessKey p)).
Proof.
  intros [HO HV] (_ & _ & Hk). repeat split; simpl; try congruence. exact Hk.
Qed.

Lemma wf_set_key p w K :
  is_hex_token K = true -> well_formed p ->
  well_formed (mkParsed (ownerId p) (videoId p) (group [w; K] 1)).
Proof.
  intros HK (Ho & Hv & _). repeat split; simpl; try assumption. congruence.
Qed.

Lemma wf_step_ext url p : well_formed p -> well_formed (step_ext url p).
Proof.
  intros Hp. unfold step_ext.
  destruct (js_match extRe url) as [m|] eqn:E; [|exact Hp].
  apply (found2 Shape.ext_iff) in E as (w & O & V & -> & Hs%ext_shape_numbers & _).
  pose proof (@wf_set_ids p w O V Hs Hp) as Hp1.
  destruct (js_match hashRe url) as [m|] eqn:E; [|exact Hp1].
  apply (found1 Shape.hash_iff) in E as (w' & K & -> & HK%hash_shape_token & _).
  exact (@wf_set_key _ w' K HK Hp1).
Qed.

Lemma wf_step_standard url p : well_formed p -> well_formed (step_standard url p).
Proof.
  intros Hp. unfold step_standard. destruct (ids_missing p); [|exact Hp].
  destruct (js_match standardRe url) as [m|] eqn:E; [|exact Hp].
  apply (found2 Shape.standard_iff) in E as (w & O & V & -> & Hs%standard_shape_numbers & _).
  exact (@wf_set_ids p w O V Hs Hp).
Qed.

Lemma wf_step_z url p : well_formed p -> well_formed (step_z url p).
Proof.
  intros Hp. unfold step_z. destruct (ids_missing p); [|exact Hp].
  destruct (js_match zRe url) as [m|] eqn:E; [|exact Hp].
  apply (found2 Shape.z_iff) in E as (w & O & V & -> & Hs%z_shape_numbers & _).
  exact (@wf_set_ids p w O V Hs Hp).
Qed.

Lemma wf_step_accessKey url p : well_formed p -> well_formed (step_accessKey url p).
Proof.
  intros Hp. unfold step_accessKey.
  destruct (js_match accessKeyRe url) as [m|] eqn:E; [|exact Hp].
  apply (found1 Shape.key_iff) in E as (w & K & -> & HK%key_shape_token & _).
  exact (@wf_set_key p w K HK Hp).
Qed.

Lemma wf_step_hashParam url p : well_formed p -> well_formed (step_hashParam url p).
Proof.
  intros Hp. unfold step_hashParam.
  destruct (negb (truthy_str (existingAccessKey p))); [|exact Hp].
  destruct (js_match hashRe url) as [m|] eqn:E; [|exact Hp].
  apply (found1 Shape.hash_iff) in E as (w & K & -> & HK%hash_shape_token & _).
  exact (@wf_set_key p w K HK Hp).
Qed.

(** The invariant holds of what the parser returns, on every input. *)
Theorem wf_parse url : well_formed (parse url).
Proof.
  unfold parse.
  apply wf_step_hashParam, wf_step_accessKey, wf_step_z, wf_step_standard,
    wf_step_ext, wf_initial.
Qed.

(** A key that is set is truthy. *)
Lemma wf_key_truthy p : well_formed p ->
  truthy_str (existingAccessKey p) = true <-> exists k, existingAccessKey p = Some k.
Proof.
  intros (_ & _ & Hk). split.
  - destruct (existingAccessKey p) as [k|]; [eauto | discriminate].
  - intros [k E]. rewrite E, truthy_nonempty. apply token_nonempty, Hk, E.
Qed.

(** Success leaves both identifiers set. *)
Lemma ids_present p : ids_missing p = false ->
  exists o v, ownerId p = Some o /\ videoId p = Some v.
Proof.
  unfold ids_missing. intros [Ho Hv]%orb_false_iff.
  destruct (ownerId p) as [o|]; [|discriminate].
  destruct (videoId p) as [v|]; [|discriminate]. eauto.
Qed.

Lemma ids_not_missing p o v : well_formed p ->
  ownerId p = Some o -> videoId p = Some v -> ids_missing p = false.
Proof.
  intros (Ho & Hv & _) Eo Ev. unfold ids_missing. rewrite Eo, Ev, !truthy_nonempty.
  now rewrite (signed_nonempty _ (Ho _ Eo)), (digits_nonempty _ (Hv _ Ev)).
Qed.

(* ================================================================== *)
(** ** The handler, branch by branch *)

Lemma has_cors_json st props : has_cors (json_response st props).
Proof.
  split; [|eexists]; unfold has_header; simpl; [left | right; left]; reflexivity.
Qed.

Lemma has_cors_preflight : has_cors (mkResponse 200 corsHeaders None).
Proof.
  split; [|eexists]; unfold has_header; simpl; [left | right; left]; reflexivity.
Qed.

Lemma synthesize_json p vkData :
  exists st props, synthesize p vkData = json_response st props.
Proof.
  unfold synthesize, fallback_response.
  destruct (error vkData); [destruct (truthy_str (existingAccessKey p)); eauto|].
  destruct (videos_of vkData); [destruct (truthy_str (existingAccessKey p))|]; eauto.
Qed.

Lemma ids_missing_empty : ids_missing (parse "") = true.
Proof. reflexivity. Qed.

(** A request that carries a URL on which parsing succeeds, with the
    credential configured, calls the provider once and answers with what
    [synthesize] makes of the reply. *)
Lemma exec_resolved env req url provider :
  String.eqb (method req) "OPTIONS" = false ->
  videoUrl_of req = Some (JStr url) ->
  ids_missing (parse url) = false ->
  truthy_str env = true ->
  exec provider (handler env req) =
    match provider (vkApiUrl (parse url) env) with
    | Ok vkData => Ok (synthesize (parse url) vkData)
    | Rejected e => Ok (internal_error_response e)
    end.
Proof.
  intros Hm Hu Hp He. unfold handler, try_block, videoUrl_of in *. rewrite Hm.
  destruct (json_body req) as [[| | | | |fields]|]; try discriminate.
  cbn [settle bind destructure_videoUrl]. rewrite Hu.
  assert (Hn : truthy (JStr url) = true).
  { destruct url; [|reflexivity]. now rewrite ids_missing_empty in Hp. }
  rewrite Hn. cbn [negb match_receiver bind]. rewrite Hp, He.
  cbn [negb fetch_json bind try_catch exec].
  now destruct (provider (vkApiUrl (parse url) env)).
Qed.

(** What the handler does before the provider could be called. *)
Lemma handler_local env req (videoUrl : option json) :
  String.eqb (method req) "OPTIONS" = false ->
  (exists fields, json_body req = Ok (JObj fields) /\ lookup "videoUrl" fields = videoUrl) ->
  handler env req =
    match videoUrl with
    | Some (JStr (String c u)) =>
        let url := String c u in
        if ids_missing (parse url) then Pure (invalid_response (JStr url))
        else if negb (truthy_str env) then Pure not_configured_response
        else try_catch (vkData <- fetch_json (vkApiUrl (parse url) env) ;;
                        Pure (synthesize (parse url) vkData))
                       (fun error => Pure (internal_error_response error))
    | Some v =>
        if truthy v
        then Pure (internal_error_response "TypeError: videoUrl.match is not a function")
        else Pure missing_response
    | None => Pure missing_response
    end.
Proof.
  intros Hm (fields & Hb & Hu). unfold handler, try_block. rewrite Hm, Hb.
  cbn [settle bind destructure_videoUrl]. rewrite Hu.
  destruct videoUrl as [[|b|n|[|c u]|l|f]|]; try reflexivity.
  - now destruct b.
  - cbn [truthy]. now destruct (truthy_num n).
  - cbn [truthy truthy_str negb match_receiver bind].
    destruct (ids_missing (parse (String c u))); [reflexivity|].
    now destruct (negb (truthy_str env)).
Qed.

(* ================================================================== *)
(** ** How the five steps combine *)

Lemma step_accessKey_ids url p :
  ownerId (step_accessKey url p) = ownerId p /\ videoId (step_accessKey url p) = videoId p.
Proof. unfold step_accessKey. now destruct (js_match accessKeyRe url). Qed.

Lemma step_hashParam_ids url p :
  ownerId (step_hashParam url p) = ownerId p /\ videoId (step_hashParam url p) = videoId p.
Proof.
  unfold step_hashParam. destruct (negb (truthy_str (existingAccessKey p))); [|auto].
  now destruct (js_match hashRe url).
Qed.

Lemma step_standard_key url p :
  existingAccessKey (step_standard url p) = existingAccessKey p.
Proof.
  unfold step_standard. destruct (ids_missing p); [|reflexivity].
  now destruct (js_match standardRe url).
Qed.

Lemma step_z_key url p : existingAccessKey (step_z url p) = existingAccessKey p.
Proof.
  unfold step_z. destruct (ids_missing p); [|reflexivity].
  now destruct (js_match zRe url).
Qed.

(** Steps 4 and 5 leave the identifiers of steps 1-3 alone. *)
Lemma parse_ids url :
  ownerId (parse url) = ownerId (ids url) /\ videoId (parse url) = videoId (ids url).
Proof.
  unfold parse, ids.
  destruct (step_hashParam_ids url
    (step_accessKey url (step_z url (step_standard url (step_ext url initial))))) as [-> ->].
  apply step_accessKey_ids.
Qed.

Lemma parse_ids_missing url : ids_missing (parse url) = ids_missing (ids url).
Proof. unfold ids_missing. now destruct (parse_ids url) as [-> ->]. Qed.

(** Steps 2 and 3 leave the key of step 1 alone. *)
Lemma ids_key url : existingAccessKey (ids url) = existingAccessKey (step_ext url initial).
Proof. unfold ids. now rewrite step_z_key, step_standard_key. Qed.

(** The key the parser returns, by priority: the key in the path, else
    the key step 1 adopted, else the generic [hash] parameter. *)
Lemma parse_key url :
  existingAccessKey (parse url) =
    match path_key url with
    | Some K => Some K
    | None =>
        match existingAccessKey (step_ext url initial) with
        | Some h => Some h
        | None => hash_param url
        end
    end.
Proof.
  pose proof (wf_step_z url (wf_step_standard url (wf_step_ext url wf_initial))) as Hw.
  fold (ids url) in Hw. rewrite <- ids_key.
  unfold parse. fold (ids url). unfold path_key, step_hashParam, step_accessKey.
  destruct (js_match accessKeyRe url) as [m|] eqn:E.
  - apply (found1 Shape.key_iff) in E as (w & K & -> & HK%key_shape_token & _).
    cbn [existingAccessKey group nth_error].
    rewrite truthy_nonempty, (token_nonempty _ HK). reflexivity.
  - destruct (existingAccessKey (ids url)) as [h|] eqn:Eh.
    + assert (Ht : truthy_str (Some h) = true).
      { rewrite <- Eh. apply wf_key_truthy; eauto. }
      now rewrite Ht.
    + cbn [truthy_str negb]. unfold hash_param.
      now destruct (js_match hashRe url).
Qed.

(** With none of the three identifier patterns matching, the identifiers
    stay unset. *)
Lemma ids_none url :
  js_match extRe url = None -> js_match standardRe url = None -> js_match zRe url = None ->
  ids url = initial.
Proof.
  intros H1 H2 H3. unfold ids, step_z, step_standard, step_ext.
  rewrite H1. cbn [ids_missing initial ownerId truthy_str negb orb]. rewrite H2.
  cbn [ids_missing initial ownerId truthy_str negb orb]. now rewrite H3.
Qed.

(* ================================================================== *)
(** ** Properties of the handler *)

(** C9: every response of the handler, on every branch -- the preflight
    answer, each 400, 404 and 500 error and both kinds of success --
    carries [Access-Control-Allow-Origin: *] and an
    [Access-Control-Allow-Headers] header; and the handler always answers,
    whatever the request, the environment and the provider do. *)
Theorem C9_cors_on_every_response env req provider :
  exists r, exec provider (handler env req) = Ok r /\ has_cors r.
Proof.
  unfold handler.
  destruct (String.eqb (method req) "OPTIONS").
  { eexists. split; [reflexivity | apply has_cors_preflight]. }
  unfold try_block.
  destruct (json_body req) as [value|e]; cbn [settle bind try_catch].
  2:{ eexists. split; [reflexivity | apply has_cors_json]. }
  assert (Hlocal : forall st props,
             exists r, exec provider (Pure (json_response st props)) = Ok r /\ has_cors r).
  { intros st props. eexists. split; [reflexivity | apply has_cors_json]. }
  destruct value as [|b|n|s|l|fields]; cbn [destructure_videoUrl bind try_catch negb];
    try apply Hlocal.
  destruct (lookup "videoUrl" fields) as [v|]; [|apply Hlocal].
  destruct (truthy v) eqn:Hv; cbn [negb]; [|apply Hlocal].
  destruct v as [|b|n|url|l|f]; cbn [match_receiver bind try_catch]; try apply Hlocal.
  destruct (ids_missing (parse url)); [apply Hlocal|].
  destruct (negb (truthy_str env)); [apply Hlocal|].
  cbn [fetch_json bind try_catch exec].
  destruct (provider (vkApiUrl (parse url) env)) as [vkData|e]; cbn [settle bind try_catch].
  - destruct (synthesize_json (parse url) vkData) as (st & props & ->). apply Hlocal.
  - apply Hlocal.
Qed.

(** C10: a request whose body gives [videoUrl] as the empty string, or as
    any other falsy value, or leaves it out, is answered with the 400
    "Missing videoUrl parameter" response, without parsing and without a
    provider call. *)
Theorem C10_falsy_videoUrl_rejected env req fields :
  String.eqb (method req) "OPTIONS" = false ->
  json_body req = Ok (JObj fields) ->
  match lookup "videoUrl" fields with Some v => truthy v | None => false end = false ->
  answers_locally (handler env req) missing_response /\
  status missing_response = 400 /\
  body_field "error" missing_response = Some (JStr "Missing videoUrl parameter").
Proof.
  intros Hm Hb Hv. split; [|split; reflexivity].
  unfold answers_locally.
  rewrite (@handler_local env req (lookup "videoUrl" fields) Hm) by eauto.
  destruct (lookup "videoUrl" fields) as [v|]; [|reflexivity].
  rewrite Hv. destruct v as [| | |[|c u]| |]; try reflexivity. discriminate.
Qed.

Lemma C10_falsy_videoUrl_rejected_witness :
  let req := mkRequest "POST" (Ok (JObj [("videoUrl", JStr "")])) in
  answers_locally (handler (Some "token") req) missing_response /\
  status missing_response = 400 /\
  body_field "error" missing_response = Some (JStr "Missing videoUrl parameter").
Proof.
  exact (@C10_falsy_videoUrl_rejected (Some "token")
           (mkRequest "POST" (Ok (JObj [("videoUrl", JStr "")])))
           [("videoUrl", JStr "")] eq_refl eq_refl eq_refl).
Defined.

(** C5: when none of the three identifier patterns matches the URL, the
    identifiers are still missing after steps 1-3 and the handler answers
    400 "Invalid VK video URL format" with the input as [originalUrl],
    without calling the provider. *)
Theorem C5_invalid_url_rejected env req fields url :
  String.eqb (method req) "OPTIONS" = false ->
  json_body req = Ok (JObj fields) ->
  lookup "videoUrl" fields = Some (JStr url) ->
  nonempty url = true ->
  js_match extRe url = None ->
  js_match standardRe url = None ->
  js_match zRe url = None ->
  ids_missing (ids url) = true /\
  answers_locally (handler env req) (invalid_response (JStr url)) /\
  status (invalid_response (JStr url)) = 400 /\
  body_field "error" (invalid_response (JStr url)) = Some (JStr "Invalid VK video URL format") /\
  body_field "originalUrl" (invalid_response (JStr url)) = Some (JStr url).
Proof.
  intros Hm Hb Hu Hn H1 H2 H3.
  assert (Hi : ids_missing (ids url) = true) by now rewrite ids_none.
  split; [exact Hi|]. split; [|repeat split].
  unfold answers_locally.
  rewrite (@handler_local env req (Some (JStr url)) Hm) by eauto.
  destruct url as [|c u]; [discriminate|].
  cbv zeta. now rewrite parse_ids_missing, Hi.
Qed.

Lemma C5_invalid_url_rejected_witness :
  let url := "https://example.com/watch?id=1" in
  let req := mkRequest "POST" (Ok (JObj [("videoUrl", JStr url)])) in
  ids_missing (ids url) = true /\
  answers_locally (handler (Some "token") req) (invalid_response (JStr url)) /\
  status (invalid_response (JStr url)) = 400 /\
  body_field "error" (invalid_response (JStr url)) = Some (JStr "Invalid VK video URL format") /\
  body_field "originalUrl" (invalid_response (JStr url)) = Some (JStr url).
Proof.
  exact (@C5_invalid_url_rejected (Some "token")
           (mkRequest "POST" (Ok (JObj [("videoUrl", JStr "https://example.com/watch?id=1")])))
           [("videoUrl", JStr "https://example.com/watch?id=1")]
           "https://example.com/watch?id=1"
           eq_refl eq_refl eq_refl eq_refl eq_refl eq_refl eq_refl).
Defined.

(** C8, as amended: when parsing succeeds, [ownerId] is a signed integer
    and [videoId] an integer, both non-empty, and the access key, when
    there is one, is a non-empty run of hexadecimal digits of either case
    (the patterns carry the [i] flag). *)
Theorem C8_reference_invariant url :
  ids_missing (parse url) = false ->
  exists o v,
    ownerId (parse url) = Some o /\ videoId (parse url) = Some v /\
    is_signed_int o = true /\ is_digits v = true /\
    o <> "" /\ v <> "" /\
    forall k, existingAccessKey (parse url) = Some k ->
              k <> "" /\ Str.all is_hex k = true.
Proof.
  intros H. destruct (ids_present _ H) as (o & v & Eo & Ev).
  destruct (wf_parse url) as (Ho & Hv & Hk).
  exists o, v.
  split; [exact Eo|]. split; [exact Ev|].
  split; [exact (Ho _ Eo)|]. split; [exact (Hv _ Ev)|].
  split; [intros ->; now specialize (Ho _ Eo)|].
  split; [intros ->; now specialize (Hv _ Ev)|].
  intros k Ek. specialize (Hk _ Ek). split.
  - intros ->. discriminate.
  - unfold is_hex_token in Hk. now apply andb_true_iff in Hk as [_ Hk].
Qed.

Lemma C8_reference_invariant_witness :
  let url := "https://vk.com/video-123456789_456239017_DEADbeef" in
  exists o v,
    ownerId (parse url) = Some o /\ videoId (parse url) = Some v /\
    is_signed_int o = true /\ is_digits v = true /\
    o <> "" /\ v <> "" /\
    forall k, existingAccessKey (parse url) = Some k ->
              k <> "" /\ Str.all is_hex k = true.
Proof.
  exact (C8_reference_invariant "https://vk.com/video-123456789_456239017_DEADbeef" eq_refl).
Defined.

(** C8 as stated fails: parsing succeeds on this URL with an access key
    that is not made of [[a-f0-9]] only. *)
Lemma C8_lowercase_key_counterexample :
  let url := "https://vk.com/video-1_2_ABCDEF" in
  ids_missing (parse url) = false /\
  existingAccessKey (parse url) = Some "ABCDEF" /\
  is_lower_hex_token "ABCDEF" = false.
Proof. repeat split. Qed.

(* ================================================================== *)
(** ** The embed synthesizer behind the handler *)

Lemma body_field_json st props key :
  body_field key (json_response st props) = lookup key (stringify props).
Proof. reflexivity. Qed.

Lemma jstr_or_else v d : jstr (or_else v (Some d)) = JStr (text_or v d).
Proof. now destruct v as [[|c m]|]. Qed.

Lemma hash_embed_url_eq p o v k :
  ownerId p = Some o -> videoId p = Some v ->
  hash_embed_url p (Some k) = hash_url o v k.
Proof. unfold hash_embed_url. now intros -> ->. Qed.

Lemma public_embed_url_eq p o v :
  ownerId p = Some o -> videoId p = Some v -> public_embed_url p = public_url o v.
Proof. unfold public_embed_url. now intros -> ->. Qed.

Lemma prefix_nil s : String.prefix "" s = true.
Proof. now destruct s. Qed.

Lemma prefix_append n : forall u t,
  String.prefix n u = true -> String.prefix n (u ++ t) = true.
Proof.
  induction n as [|a n IH]; intros u t H; [apply prefix_nil|].
  destruct u as [|b u]; [discriminate|].
  cbn [append String.prefix] in *.
  destruct (ascii_dec a b); [now apply IH | discriminate].
Qed.

Lemma includes_here n s : String.prefix n s = true -> Str.includes n s = true.
Proof. intros H. destruct s; cbn [Str.includes]; now rewrite H. Qed.

Lemma includes_append_r n u t : Str.includes n t = true -> Str.includes n (u ++ t) = true.
Proof.
  intros H. induction u as [|a u IH]; [exact H|].
  cbn [append Str.includes]. now destruct (String.prefix n (String a (u ++ t))).
Qed.

Lemma includes_append_l n u t : Str.includes n u = true -> Str.includes n (u ++ t) = true.
Proof.
  induction u as [|a u IH]; intros H.
  - destruct n; [|simpl in H; discriminate]. apply includes_here, prefix_nil.
  - cbn [append Str.includes] in *.
    destruct (String.prefix n (String a u)) eqn:E.
    + change (String a (u ++ t)) with (String a u ++ t). now rewrite prefix_append.
    + destruct (String.prefix n (String a (u ++ t))); [reflexivity | now apply IH].
Qed.

Lemma prefix_self n b : String.prefix n (n ++ b) = true.
Proof.
  induction n as [|x n IH]; [apply prefix_nil|].
  cbn [append String.prefix]. destruct (ascii_dec x x); [exact IH | contradiction].
Qed.

Lemma prefix_split n : forall s, String.prefix n s = true -> exists b, s = n ++ b.
Proof.
  induction n as [|x n IH]; intros s H; [now exists s|].
  destruct s as [|y s]; [discriminate|].
  cbn [String.prefix] in H. destruct (ascii_dec x y) as [->|]; [|discriminate].
  destruct (IH _ H) as [b ->]. now exists b.
Qed.

(** [includes] finds exactly the texts that occur. *)
Lemma includes_iff n s : Str.includes n s = true <-> occurs_in n s.
Proof.
  split.
  - induction s as [|c s IH]; cbn [Str.includes].
    + destruct (String.prefix n "") eqn:E; [|discriminate].
      intros _. apply prefix_split in E as [b ->]. now exists "", b.
    + destruct (String.prefix n (String c s)) eqn:E.
      * intros _. apply prefix_split in E as [b ->]. now exists "", b.
      * intros H. destruct (IH H) as (a & b & ->). now exists (String c a), b.
  - intros (a & b & ->). apply includes_append_r, includes_here, prefix_self.
Qed.

Lemma includes_false n s : Str.includes n s = false <-> ~ occurs_in n s.
Proof.
  rewrite <- includes_iff. destruct (Str.includes n s); split; congruence.
Qed.

Lemma videos_of_items vkData r0 l :
  response vkData = Some r0 -> items r0 = Some l -> videos_of vkData = l.
Proof. unfold videos_of. now intros -> ->. Qed.

Section Synthesizer.

Variables (env : option string) (req : Request) (url : string).
Variables (provider : string -> outcome VKData) (vkData : VKData).
Variables (o v : string).

Hypothesis not_preflight : String.eqb (method req) "OPTIONS" = false.
Hypothesis carries_url : videoUrl_of req = Some (JStr url).
Hypothesis owner_found : ownerId (parse url) = Some o.
Hypothesis video_found : videoId (parse url) = Some v.
Hypothesis configured : truthy_str env = true.
Hypothesis provider_replies : provider (vkApiUrl (parse url) env) = Ok vkData.

Lemma resolved : exec provider (handler env req) = Ok (synthesize (parse url) vkData).
Proof.
  rewrite (@exec_resolved env req url provider not_preflight carries_url).
  - now rewrite provider_replies.
  - exact (ids_not_missing (wf_parse url) owner_found video_found).
  - exact configured.
Qed.

Lemma key_truthy k : existingAccessKey (parse url) = Some k ->
  truthy_str (existingAccessKey (parse url)) = true.
Proof. intros E. apply wf_key_truthy; [apply wf_parse | eauto]. Qed.

Lemma fallback_fields k : existingAccessKey (parse url) = Some k ->
  let r := fallback_response (parse url) in
  status r = 200 /\
  body_field "success" r = Some (JBool true) /\
  body_field "embedUrl" r = Some (JStr (hash_url o v k)) /\
  body_field "ownerId" r = Some (JStr o) /\
  body_field "videoId" r = Some (JStr v) /\
  body_field "accessKey" r = Some (JStr k) /\
  body_field "source" r = Some (JStr "fallback").
Proof.
  intros E. unfold fallback_response. rewrite !body_field_json.
  rewrite E, (@hash_embed_url_eq (parse url) o v k owner_found video_found).
  rewrite owner_found, video_found.
  repeat split.
Qed.

(** C1: when the provider's reply carries an [error], the answer is the
    400 with the provider's message (or "VK API error" when it has none),
    its code as [JSON.stringify] writes it, and the hint about access
    keys, exactly when no access key was found in the URL; when one was
    found the answer is instead a 200 with the embed URL built from that
    key and [source = "fallback"]. *)
Theorem C1_provider_error vkError :
  error vkData = Some vkError ->
  exists r, exec provider (handler env req) = Ok r /\
    (status r = 400 <-> existingAccessKey (parse url) = None) /\
    (existingAccessKey (parse url) = None ->
       (forall c m, error_msg vkError = Some (String c m) ->
          body_field "error" r = Some (JStr (String c m))) /\
       (error_msg vkError = None \/ error_msg vkError = Some "" ->
          body_field "error" r = Some (JStr "VK API error")) /\
       (error_code vkError = None -> body_field "errorCode" r = None) /\
       (forall s m e, error_code vkError = Some (S754_finite s m e) ->
          body_field "errorCode" r = Some (JNum (S754_finite s m e))) /\
       (forall s, error_code vkError = Some (S754_zero s) ->
          body_field "errorCode" r = Some (JNum (S754_zero false))) /\
       ((exists s, error_code vkError = Some (S754_infinity s)) \/
        error_code vkError = Some S754_nan ->
          body_field "errorCode" r = Some JNull) /\
       body_field "hint" r =
         Some (JStr ("For " ++ String "034" "Anyone with the link" ++ String "034"
                       " videos, make sure to include the access_key or hash in the URL")) /\
       body_field "embedUrl" r = None) /\
    (forall k, existingAccessKey (parse url) = Some k ->
       status r = 200 /\
       body_field "success" r = Some (JBool true) /\
       body_field "embedUrl" r = Some (JStr (hash_url o v k)) /\
       body_field "accessKey" r = Some (JStr k) /\
       body_field "source" r = Some (JStr "fallback")).
Proof.
  intros He. exists (synthesize (parse url) vkData). split; [exact resolved|].
  unfold synthesize. rewrite He.
  destruct (existingAccessKey (parse url)) as [k|] eqn:Ek.
  - rewrite <- Ek, (key_truthy Ek), Ek.
    destruct (fallback_fields Ek) as (Hs & H1 & H2 & _ & _ & H3 & H4).
    split; [|split].
    + rewrite Hs. split; discriminate.
    + discriminate.
    + intros k' [= <-]. auto.
  - cbn [truthy_str]. split; [|split].
    + split; intros _; reflexivity.
    + intros _. rewrite !body_field_json.
      split; [intros c m ->; reflexivity|].
      split; [intros [->| ->]; reflexivity|].
      split; [intros ->; reflexivity|].
      split; [intros s m e ->; reflexivity|].
      split; [intros s ->; reflexivity|].
      split; [intros [[s ->]| ->]; reflexivity|].
      split; destruct (error_code vkError); reflexivity.
    + discriminate.
Qed.

(** C2: when the reply has no [error] and no record, the answer is the
    404 exactly when no access key was found in the URL; when one was
    found the answer is instead a 200 with the embed URL built from that
    key and [source = "fallback"]. *)
Theorem C2_no_records :
  error vkData = None ->
  videos_of vkData = [] ->
  exists r, exec provider (handler env req) = Ok r /\
    (status r = 404 <-> existingAccessKey (parse url) = None) /\
    (existingAccessKey (parse url) = None ->
       body_field "error" r = Some (JStr "Video not found or not accessible") /\
       body_field "embedUrl" r = None) /\
    (forall k, existingAccessKey (parse url) = Some k ->
       status r = 200 /\
       body_field "success" r = Some (JBool true) /\
       body_field "embedUrl" r = Some (JStr (hash_url o v k)) /\
       body_field "accessKey" r = Some (JStr k) /\
       body_field "source" r = Some (JStr "fallback")).
Proof.
  intros He Hv. exists (synthesize (parse url) vkData). split; [exact resolved|].
  unfold synthesize. rewrite He, Hv. cbv zeta.
  destruct (existingAccessKey (parse url)) as [k|] eqn:Ek.
  - rewrite <- Ek, (key_truthy Ek), Ek.
    destruct (fallback_fields Ek) as (Hs & H1 & H2 & _ & _ & H3 & H4).
    split; [|split].
    + rewrite Hs. split; discriminate.
    + discriminate.
    + intros k' [= <-]. auto.
  - cbn [truthy_str]. split; [|split].
    + split; intros _; reflexivity.
    + intros _. split; reflexivity.
    + discriminate.
Qed.

Lemma ensure_https_http rest : ensure_https ("http:" ++ rest) = "https:" ++ rest.
Proof. now destruct rest. Qed.

Lemma ensure_https_other u : String.prefix "http:" u = false -> ensure_https u = u.
Proof. unfold ensure_https. now intros ->. Qed.

(** C6: when the first record has a player URL, the embed URL is that
    URL with a leading [http:] rewritten to [https:]; then [hd=2] is
    appended (after [&] when the URL has a [?], after [?] otherwise)
    exactly when the text [hd=] does not occur in it, and [&autoplay=0]
    exactly when the text [autoplay=] does not occur in it -- so neither
    is appended to a URL that has it as a query parameter; for
    [http://vk.com/player.html] this is
    [https://vk.com/player.html?hd=2&autoplay=0]. *)
Theorem C6_player_url r0 video others pl :
  error vkData = None ->
  response vkData = Some r0 ->
  items r0 = Some (video :: others) ->
  player video = Some pl ->
  pl <> "" ->
  exists r u1 u2 u3, exec provider (handler env req) = Ok r /\
    status r = 200 /\
    body_field "embedUrl" r = Some (JStr u3) /\
    body_field "playerUrl" r = Some (JStr pl) /\
    body_field "source" r = Some (JStr "vk_api") /\
    (forall rest, pl = "http:" ++ rest -> u1 = "https:" ++ rest) /\
    ((forall rest, pl <> "http:" ++ rest) -> u1 = pl) /\
    (occurs_in "hd=" u1 -> u2 = u1) /\
    (~ occurs_in "hd=" u1 -> occurs_in "?" u1 -> u2 = u1 ++ "&hd=2") /\
    (~ occurs_in "hd=" u1 -> ~ occurs_in "?" u1 -> u2 = u1 ++ "?hd=2") /\
    (occurs_in "autoplay=" u2 -> u3 = u2) /\
    (~ occurs_in "autoplay=" u2 -> u3 = u2 ++ "&autoplay=0") /\
    (forall a sep b, is_param_sep sep = true ->
       u1 = a ++ String sep ("hd=" ++ b) -> u2 = u1) /\
    (forall a sep b, is_param_sep sep = true ->
       u2 = a ++ String sep ("autoplay=" ++ b) -> u3 = u2) /\
    (pl = "http://vk.com/player.html" -> u3 = "https://vk.com/player.html?hd=2&autoplay=0").
Proof.
  intros He Hr Hi Hpl Hn.
  exists (synthesize (parse url) vkData), (ensure_https pl), (add_hd (ensure_https pl)),
    (add_autoplay (add_hd (ensure_https pl))).
  split; [exact resolved|].
  unfold synthesize. rewrite He, (videos_of_items _ Hr Hi). cbv zeta.
  unfold embed_url. rewrite Hpl, truthy_nonempty.
  assert (Hne : nonempty pl = true) by (now destruct pl).
  rewrite Hne, !body_field_json.
  split; [reflexivity|]. split; [reflexivity|].
  split; [destruct pl; [discriminate | reflexivity]|].
  split; [reflexivity|].
  split; [intros rest ->; apply ensure_https_http|].
  split.
  { intros Hno. apply ensure_https_other.
    destruct (String.prefix "http:" pl) eqn:E; [|reflexivity].
    apply prefix_split in E as [b E]. now elim (Hno b). }
  unfold add_hd, add_autoplay.
  split; [now intros ->%includes_iff|].
  split; [now intros ->%includes_false ->%includes_iff|].
  split; [now intros ->%includes_false ->%includes_false|].
  split; [now intros ->%includes_iff|].
  split; [now intros ->%includes_false|].
  split.
  { intros a sep b _ E.
    assert (H : Str.includes "hd=" (ensure_https pl) = true)
      by (apply includes_iff; exists (a ++ String sep ""), b;
          now rewrite E, append_assoc).
    now rewrite H. }
  split.
  { intros a sep b _ E.
    assert (H : Str.includes "autoplay=" (add_hd (ensure_https pl)) = true)
      by (apply includes_iff; exists (a ++ String sep ""), b; unfold add_hd in *;
          now rewrite E, append_assoc).
    unfold add_hd in H. now rewrite H. }
  now intros ->.
Qed.

(** C7: with at least one record the first one is used; the effective
    access key is the record's when it has a non-empty one, else the one
    found in the URL; without a player URL the embed URL is the [hash]
    URL built with the effective key, or the keyless URL when there is no
    key; and [source] is ["vk_api"] whichever way the URL was built. *)
Theorem C7_first_record r0 video others :
  error vkData = None ->
  response vkData = Some r0 ->
  items r0 = Some (video :: others) ->
  let no_player := player video = None \/ player video = Some "" in
  let no_record_key := access_key video = None \/ access_key video = Some "" in
  exists r, exec provider (handler env req) = Ok r /\
    status r = 200 /\
    body_field "source" r = Some (JStr "vk_api") /\
    (forall c ak, access_key video = Some (String c ak) ->
       body_field "accessKey" r = Some (JStr (String c ak)) /\
       (no_player -> body_field "embedUrl" r = Some (JStr (hash_url o v (String c ak))))) /\
    (no_record_key -> forall k, existingAccessKey (parse url) = Some k ->
       body_field "accessKey" r = Some (JStr k) /\
       (no_player -> body_field "embedUrl" r = Some (JStr (hash_url o v k)))) /\
    (no_record_key -> existingAccessKey (parse url) = None ->
       body_field "accessKey" r = Some JNull /\
       (no_player -> body_field "embedUrl" r = Some (JStr (public_url o v)))) /\
    (forall c t, title video = Some (String c t) ->
       body_field "title" r = Some (JStr (String c t))) /\
    (title video = None \/ title video = Some "" -> body_field "title" r = Some JNull) /\
    (forall s m e, duration video = Some (S754_finite s m e) ->
       body_field "duration" r = Some (JNum (S754_finite s m e))) /\
    (duration video = None \/ (exists s, duration video = Some (S754_zero s)) \/
     (exists s, duration video = Some (S754_infinity s)) \/ duration video = Some S754_nan ->
       body_field "duration" r = Some JNull).
Proof.
  intros He Hr Hi no_player no_record_key.
  exists (synthesize (parse url) vkData). split; [exact resolved|].
  unfold synthesize. rewrite He, (videos_of_items _ Hr Hi). cbv zeta.
  rewrite !body_field_json.
  cbn [stringify as_sent lookup String.eqb Ascii.eqb Bool.eqb status json_response as_sent].
  assert (Hp : no_player -> truthy_str (player video) = false)
    by (intros [->| ->]; reflexivity).
  assert (Hk : no_record_key ->
            or_else (access_key video) (existingAccessKey (parse url))
            = existingAccessKey (parse url))
    by (intros [E|E]; unfold or_else; now rewrite E).
  split; [reflexivity|]. split; [reflexivity|].
  split.
  { intros c ak E. unfold embed_url, or_else. rewrite E. cbn [truthy_str].
    split; [reflexivity|]. intros Hnp. rewrite (Hp Hnp).
    now rewrite (@hash_embed_url_eq (parse url) o v _ owner_found video_found). }
  split.
  { intros Hnk k Ek. unfold embed_url. rewrite (Hk Hnk), Ek.
    pose proof (key_truthy Ek) as Ht. rewrite Ek in Ht.
    split; [destruct k; [discriminate | reflexivity]|].
    intros Hnp. rewrite (Hp Hnp), Ht.
    now rewrite (@hash_embed_url_eq (parse url) o v k owner_found video_found). }
  split.
  { intros Hnk Ek. unfold embed_url. rewrite (Hk Hnk), Ek.
    split; [reflexivity|]. intros Hnp. rewrite (Hp Hnp). cbn [truthy_str].
    now rewrite (@public_embed_url_eq (parse url) o v owner_found video_found). }
  split; [intros c t ->; reflexivity|].
  split; [intros [->| ->]; reflexivity|].
  split; [intros s m e ->; reflexivity|].
  intros [->|[[s ->]|[[s ->]| ->]]]; reflexivity.
Qed.

End Synthesizer.

(* ================================================================== *)
(** ** The extension-embed pattern and the access key *)

Lemma step_ext_ids url w O V :
  js_match extRe url = Some [w; O; V] ->
  ownerId (step_ext url initial) = Some O /\
  videoId (step_ext url initial) = Some V.
Proof.
  intros E. unfold step_ext. rewrite E.
  now destruct (js_match hashRe url).
Qed.

Lemma step_ext_key url m :
  js_match extRe url = Some m ->
  existingAccessKey (step_ext url initial) = hash_param url.
Proof.
  intros E. unfold step_ext, hash_param. rewrite E.
  now destruct (js_match hashRe url).
Qed.

(** Once step 1 has set both identifiers, steps 2 and 3 are skipped. *)
Lemma ids_of_step_ext url O V :
  ownerId (step_ext url initial) = Some O -> videoId (step_ext url initial) = Some V ->
  ownerId (parse url) = Some O /\ videoId (parse url) = Some V.
Proof.
  intros Eo Ev. destruct (parse_ids url) as [-> ->].
  assert (Hm : ids_missing (step_ext url initial) = false)
    by exact (ids_not_missing (wf_step_ext url wf_initial) Eo Ev).
  unfold ids, step_z, step_standard. rewrite Hm, Hm. auto.
Qed.

(** C3 as stated fails: with [id] before [oid] the pattern does not match
    and the parser finds no identifier at all. *)
Lemma C3_reverse_order_counterexample :
  let url := "https://vk.com/video_ext.php?id=456239017&oid=-123456789" in
  js_match extRe url = None /\
  ownerId (parse url) = None /\
  videoId (parse url) = None /\
  ids_missing (parse url) = true.
Proof. repeat split. Qed.

(** C4: when the URL contains [video<signed int>_<int>_<hex token>], the
    final access key is the token of such an occurrence -- a whole run of
    hexadecimal digits -- whatever key step 1 adopted from a [hash=]
    parameter; and the generic [hash=] scan of step 5 decides the key only
    when neither the path nor step 1 gave one. *)
Theorem C4_embedded_key_priority url :
  (forall K0, contains (key_shape K0) url ->
     exists K, contains_key_token K url /\
               path_key url = Some K /\
               existingAccessKey (parse url) = Some K) /\
  (path_key url = None ->
     forall h, existingAccessKey (step_ext url initial) = Some h ->
               existingAccessKey (parse url) = Some h) /\
  (path_key url = None ->
     existingAccessKey (step_ext url initial) = None ->
     existingAccessKey (parse url) = hash_param url).
Proof.
  rewrite parse_key. split; [|split].
  - intros K0 H0. destruct (@path_key_finds url K0 H0) as [K HK].
    exists K. rewrite HK. repeat split. now apply path_key_max.
  - intros -> h ->. reflexivity.
  - intros -> ->. reflexivity.
Qed.

Lemma C4_embedded_key_priority_witness :
  let url := "https://vk.com/video_ext.php?oid=-1&id=2&hash=abc&from=video-1_2_deadbeef" in
  existingAccessKey (step_ext url initial) = Some "abc" /\
  existingAccessKey (parse url) = Some "deadbeef" /\
  exists K, contains_key_token K url /\
            path_key url = Some K /\
            existingAccessKey (parse url) = Some K.
Proof.
  split; [reflexivity|]. split; [reflexivity|].
  apply (proj1 (C4_embedded_key_priority
    "https://vk.com/video_ext.php?oid=-1&id=2&hash=abc&from=video-1_2_deadbeef") "deadbeef").
  exists "https://vk.com/video_ext.php?oid=-1&id=2&hash=abc&from=", "video-1_2_deadbeef", "".
  split; [reflexivity|].
  exists "video", "-1", "2". repeat split.
Defined.

Lemma C1_provider_error_witness :
  let post := fun url => mkRequest "POST" (Ok (JObj [("videoUrl", JStr url)])) in
  let failing := fun msg code (_ : string) =>
    Ok (mkVKData (Some (mkVKError msg code)) None) in
  (exists r,
     exec (failing (Some "Access denied") (Some (S754_finite false 15 0)))
       (handler (Some "token") (post "https://vk.com/video-123456789_456239017")) = Ok r /\
     status r = 400 /\
     body_field "error" r = Some (JStr "Access denied") /\
     body_field "errorCode" r = Some (JNum (S754_finite false 15 0)) /\
     body_field "hint" r =
       Some (JStr ("For " ++ String "034" "Anyone with the link" ++ String "034"
                     " videos, make sure to include the access_key or hash in the URL"))) /\
  (exists r,
     exec (failing None (Some (S754_infinity false)))
       (handler (Some "token") (post "https://vk.com/video-123456789_456239017")) = Ok r /\
     status r = 400 /\
     body_field "error" r = Some (JStr "VK API error") /\
     body_field "errorCode" r = Some JNull) /\
  (exists r,
     exec (failing (Some "Access denied") (Some (S754_finite false 15 0)))
       (handler (Some "token") (post "https://vk.com/video-123456789_456239017_deadbeef")) = Ok r /\
     status r = 200 /\
     body_field "embedUrl" r =
       Some (JStr "https://vk.com/video_ext.php?oid=-123456789&id=456239017&hash=deadbeef&hd=2&autoplay=0") /\
     body_field "accessKey" r = Some (JStr "deadbeef") /\
     body_field "source" r = Some (JStr "fallback") /\
     body_field "hint" r = None).
Proof.
  split; [|split].
  - destruct (@C1_provider_error (Some "token")
             (mkRequest "POST"
                (Ok (JObj [("videoUrl", JStr "https://vk.com/video-123456789_456239017")])))
             "https://vk.com/video-123456789_456239017"
             (fun _ => Ok (mkVKData
                (Some (mkVKError (Some "Access denied") (Some (S754_finite false 15 0)))) None))
             _ "-123456789" "456239017"
             eq_refl eq_refl eq_refl eq_refl eq_refl eq_refl
             (mkVKError (Some "Access denied") (Some (S754_finite false 15 0))) eq_refl)
      as (r & Hr & Hs & Hn & _).
    destruct (Hn eq_refl) as (Hm & _ & _ & Hc & _ & _ & Hh & _).
    exists r. split; [exact Hr|]. split; [now apply Hs|].
    split; [exact (Hm _ _ eq_refl)|]. split; [exact (Hc _ _ _ eq_refl) | exact Hh].
  - destruct (@C1_provider_error (Some "token")
             (mkRequest "POST"
                (Ok (JObj [("videoUrl", JStr "https://vk.com/video-123456789_456239017")])))
             "https://vk.com/video-123456789_456239017"
             (fun _ => Ok (mkVKData
                (Some (mkVKError None (Some (S754_infinity false)))) None))
             _ "-123456789" "456239017"
             eq_refl eq_refl eq_refl eq_refl eq_refl eq_refl
             (mkVKError None (Some (S754_infinity false))) eq_refl)
      as (r & Hr & Hs & Hn & _).
    destruct (Hn eq_refl) as (_ & Hm & _ & _ & _ & Hc & _).
    exists r. split; [exact Hr|]. split; [now apply Hs|].
    split; [exact (Hm (or_introl eq_refl))|].
    exact (Hc (or_introl (ex_intro _ false eq_refl))).
  - destruct (@C1_provider_error (Some "token")
             (mkRequest "POST"
                (Ok (JObj [("videoUrl", JStr "https://vk.com/video-123456789_456239017_deadbeef")])))
             "https://vk.com/video-123456789_456239017_deadbeef"
             (fun _ => Ok (mkVKData
                (Some (mkVKError (Some "Access denied") (Some (S754_finite false 15 0)))) None))
             _ "-123456789" "456239017"
             eq_refl eq_refl eq_refl eq_refl eq_refl eq_refl
             (mkVKError (Some "Access denied") (Some (S754_finite false 15 0))) eq_refl)
      as (r & Hr & _ & _ & Hk).
    destruct (Hk "deadbeef" eq_refl) as (Hs & _ & He & Ha & Hsrc).
    exists r. split; [exact Hr|]. split; [exact Hs|]. split; [exact He|].
    split; [exact Ha|]. split; [exact Hsrc|].
    cbv in Hr. injection Hr as <-. reflexivity.
Defined.

Lemma C2_no_records_witness :
  let url := "https://vk.com/video-123456789_456239017" in
  let req := mkRequest "POST" (Ok (JObj [("videoUrl", JStr url)])) in
  let provider := fun _ : string => Ok (mkVKData None (Some (mkVKResponse (Some [])))) in
  exists r, exec provider (handler (Some "token") req) = Ok r /\
    (status r = 404 <-> existingAccessKey (parse url) = None) /\
    (existingAccessKey (parse url) = None ->
       body_field "error" r = Some (JStr "Video not found or not accessible") /\
       body_field "embedUrl" r = None) /\
    (forall k, existingAccessKey (parse url) = Some k ->
       status r = 200 /\
       body_field "success" r = Some (JBool true) /\
       body_field "embedUrl" r = Some (JStr (hash_url "-123456789" "456239017" k)) /\
       body_field "accessKey" r = Some (JStr k) /\
       body_field "source" r = Some (JStr "fallback")).
Proof.
  exact (@C2_no_records (Some "token")
           (mkRequest "POST"
              (Ok (JObj [("videoUrl", JStr "https://vk.com/video-123456789_456239017")])))
           "https://vk.com/video-123456789_456239017"
           (fun _ => Ok (mkVKData None (Some (mkVKResponse (Some [])))))
           _ "-123456789" "456239017"
           eq_refl eq_refl eq_refl eq_refl eq_refl eq_refl eq_refl eq_refl).
Defined.

Lemma C6_player_url_witness :
  let req := mkRequest "POST"
    (Ok (JObj [("videoUrl", JStr "https://vk.com/video-123456789_456239017")])) in
  let replying := fun pl (_ : string) =>
    Ok (mkVKData None (Some (mkVKResponse (Some [mkVKVideo None (Some pl) None None])))) in
  (exists r,
     exec (replying "http://vk.com/player.html") (handler (Some "token") req) = Ok r /\
     body_field "embedUrl" r = Some (JStr "https://vk.com/player.html?hd=2&autoplay=0")) /\
  (exists r,
     exec (replying "https://vk.com/video_ext.php?oid=1&id=2&hd=1&autoplay=1")
       (handler (Some "token") req) = Ok r /\
     body_field "embedUrl" r =
       Some (JStr "https://vk.com/video_ext.php?oid=1&id=2&hd=1&autoplay=1")) /\
  (exists r,
     exec (replying "http://vk.com/video_ext.php?oid=1&id=2") (handler (Some "token") req) = Ok r /\
     body_field "embedUrl" r =
       Some (JStr "https://vk.com/video_ext.php?oid=1&id=2&hd=2&autoplay=0")) /\
  (exists r,
     exec (replying "https://vk.com/p?shd=1") (handler (Some "token") req) = Ok r /\
     body_field "embedUrl" r = Some (JStr "https://vk.com/p?shd=1&autoplay=0")).
Proof.
  split; [|split; [|split]].
  - destruct (@C6_player_url (Some "token")
             (mkRequest "POST"
                (Ok (JObj [("videoUrl", JStr "https://vk.com/video-123456789_456239017")])))
             "https://vk.com/video-123456789_456239017"
             (fun _ => Ok (mkVKData None (Some (mkVKResponse
                (Some [mkVKVideo None (Some "http://vk.com/player.html") None None])))))
             _ "-123456789" "456239017"
             eq_refl eq_refl eq_refl eq_refl eq_refl eq_refl
             (mkVKResponse (Some [mkVKVideo None (Some "http://vk.com/player.html") None None]))
             (mkVKVideo None (Some "http://vk.com/player.html") None None) []
             "http://vk.com/player.html" eq_refl eq_refl eq_refl eq_refl
             ltac:(discriminate))
      as (r & u1 & u2 & u3 & Hr & _ & He & _ & _ & _ & _ & _ & _ & _ & _ & _ & _ & _ & Hu).
    exists r. split; [exact Hr|]. now rewrite <- (Hu eq_refl).
  - destruct (@C6_player_url (Some "token")
             (mkRequest "POST"
                (Ok (JObj [("videoUrl", JStr "https://vk.com/video-123456789_456239017")])))
             "https://vk.com/video-123456789_456239017"
             (fun _ => Ok (mkVKData None (Some (mkVKResponse
                (Some [mkVKVideo None
                         (Some "https://vk.com/video_ext.php?oid=1&id=2&hd=1&autoplay=1")
                         None None])))))
             _ "-123456789" "456239017"
             eq_refl eq_refl eq_refl eq_refl eq_refl eq_refl
             (mkVKResponse (Some [mkVKVideo None
                         (Some "https://vk.com/video_ext.php?oid=1&id=2&hd=1&autoplay=1")
                         None None]))
             (mkVKVideo None (Some "https://vk.com/video_ext.php?oid=1&id=2&hd=1&autoplay=1")
                None None) []
             "https://vk.com/video_ext.php?oid=1&id=2&hd=1&autoplay=1"
             eq_refl eq_refl eq_refl eq_refl ltac:(discriminate))
      as (r & u1 & u2 & u3 & Hr & _ & He & _ & _ & _ & H1 & H2 & _ & _ & H3 & _).
    exists r. split; [exact Hr|].
    rewrite He. do 2 f_equal.
    assert (E1 : u1 = "https://vk.com/video_ext.php?oid=1&id=2&hd=1&autoplay=1")
      by (apply H1; intros rest; discriminate).
    assert (E2 : u2 = u1)
      by (apply H2; rewrite E1;
          now exists "https://vk.com/video_ext.php?oid=1&id=2&", "1&autoplay=1").
    rewrite <- E1, <- E2. apply H3. rewrite E2, E1.
    now exists "https://vk.com/video_ext.php?oid=1&id=2&hd=1&", "1".
  - destruct (@C6_player_url (Some "token")
             (mkRequest "POST"
                (Ok (JObj [("videoUrl", JStr "https://vk.com/video-123456789_456239017")])))
             "https://vk.com/video-123456789_456239017"
             (fun _ => Ok (mkVKData None (Some (mkVKResponse
                (Some [mkVKVideo None (Some "http://vk.com/video_ext.php?oid=1&id=2")
                         None None])))))
             _ "-123456789" "456239017"
             eq_refl eq_refl eq_refl eq_refl eq_refl eq_refl
             (mkVKResponse (Some [mkVKVideo None (Some "http://vk.com/video_ext.php?oid=1&id=2")
                         None None]))
             (mkVKVideo None (Some "http://vk.com/video_ext.php?oid=1&id=2") None None) []
             "http://vk.com/video_ext.php?oid=1&id=2"
             eq_refl eq_refl eq_refl eq_refl ltac:(discriminate))
      as (r & u1 & u2 & u3 & Hr & _ & He & _ & _ & H0 & _ & _ & H2 & _ & _ & H4 & _).
    exists r. split; [exact Hr|].
    rewrite He. do 2 f_equal.
    assert (E1 : u1 = "https://vk.com/video_ext.php?oid=1&id=2") by exact (H0 _ eq_refl).
    assert (E2 : u2 = u1 ++ "&hd=2").
    { apply H2; rewrite E1.
      - now apply includes_false.
      - now exists "https://vk.com/video_ext.php", "oid=1&id=2". }
    rewrite H4; [now rewrite E2, E1|].
    rewrite E2, E1. now apply includes_false.
  - destruct (@C6_player_url (Some "token")
             (mkRequest "POST"
                (Ok (JObj [("videoUrl", JStr "https://vk.com/video-123456789_456239017")])))
             "https://vk.com/video-123456789_456239017"
             (fun _ => Ok (mkVKData None (Some (mkVKResponse
                (Some [mkVKVideo None (Some "https://vk.com/p?shd=1") None None])))))
             _ "-123456789" "456239017"
             eq_refl eq_refl eq_refl eq_refl eq_refl eq_refl
             (mkVKResponse (Some [mkVKVideo None (Some "https://vk.com/p?shd=1") None None]))
             (mkVKVideo None (Some "https://vk.com/p?shd=1") None None) []
             "https://vk.com/p?shd=1"
             eq_refl eq_refl eq_refl eq_refl ltac:(discriminate))
      as (r & u1 & u2 & u3 & Hr & _ & He & _ & _ & _ & H1 & H2 & _ & _ & _ & H4 & _).
    exists r. split; [exact Hr|].
    rewrite He. do 2 f_equal.
    assert (E1 : u1 = "https://vk.com/p?shd=1") by (apply H1; intros rest; discriminate).
    assert (E2 : u2 = u1)
      by (apply H2; rewrite E1; now exists "https://vk.com/p?s", "1").
    rewrite H4; [now rewrite E2, E1|].
    rewrite E2, E1. now apply includes_false.
Defined.

Lemma C7_first_record_witness :
  let req := mkRequest "POST"
    (Ok (JObj [("videoUrl", JStr "https://vk.com/video-123456789_456239017_deadbeef")])) in
  let second := mkVKVideo (Some "ffff") (Some "http://vk.com/other.html") (Some "Other") None in
  let replying := fun first (_ : string) =>
    Ok (mkVKData None (Some (mkVKResponse (Some [first; second])))) in
  (exists r,
     exec (replying (mkVKVideo (Some "0123abcd") None (Some "Clip") (Some (S754_finite false 15 3))))
       (handler (Some "token") req) = Ok r /\
     status r = 200 /\
     body_field "source" r = Some (JStr "vk_api") /\
     body_field "accessKey" r = Some (JStr "0123abcd") /\
     body_field "embedUrl" r =
       Some (JStr "https://vk.com/video_ext.php?oid=-123456789&id=456239017&hash=0123abcd&hd=2&autoplay=0") /\
     body_field "title" r = Some (JStr "Clip") /\
     body_field "duration" r = Some (JNum (S754_finite false 15 3))) /\
  (exists r,
     exec (replying (mkVKVideo (Some "") (Some "") None (Some (S754_infinity false))))
       (handler (Some "token") req) = Ok r /\
     status r = 200 /\
     body_field "source" r = Some (JStr "vk_api") /\
     body_field "accessKey" r = Some (JStr "deadbeef") /\
     body_field "embedUrl" r =
       Some (JStr "https://vk.com/video_ext.php?oid=-123456789&id=456239017&hash=deadbeef&hd=2&autoplay=0") /\
     body_field "title" r = Some JNull /\
     body_field "duration" r = Some JNull).
Proof.
  split.
  - destruct (@C7_first_record (Some "token")
             (mkRequest "POST"
                (Ok (JObj [("videoUrl", JStr "https://vk.com/video-123456789_456239017_deadbeef")])))
             "https://vk.com/video-123456789_456239017_deadbeef"
             (fun _ => Ok (mkVKData None (Some (mkVKResponse
                (Some [mkVKVideo (Some "0123abcd") None (Some "Clip") (Some (S754_finite false 15 3));
                       mkVKVideo (Some "ffff") (Some "http://vk.com/other.html") (Some "Other") None])))))
             _ "-123456789" "456239017"
             eq_refl eq_refl eq_refl eq_refl eq_refl eq_refl
             (mkVKResponse
                (Some [mkVKVideo (Some "0123abcd") None (Some "Clip") (Some (S754_finite false 15 3));
                       mkVKVideo (Some "ffff") (Some "http://vk.com/other.html") (Some "Other") None]))
             (mkVKVideo (Some "0123abcd") None (Some "Clip") (Some (S754_finite false 15 3)))
             [mkVKVideo (Some "ffff") (Some "http://vk.com/other.html") (Some "Other") None]
             eq_refl eq_refl eq_refl)
      as (r & Hr & Hs & Hsrc & Hk & _ & _ & Ht & _ & Hd & _).
    destruct (Hk _ _ eq_refl) as [Ha He].
    exists r. split; [exact Hr|]. split; [exact Hs|]. split; [exact Hsrc|].
    split; [exact Ha|]. split; [exact (He (or_introl eq_refl))|].
    split; [exact (Ht _ _ eq_refl) | exact (Hd _ _ _ eq_refl)].
  - destruct (@C7_first_record (Some "token")
             (mkRequest "POST"
                (Ok (JObj [("videoUrl", JStr "https://vk.com/video-123456789_456239017_deadbeef")])))
             "https://vk.com/video-123456789_456239017_deadbeef"
             (fun _ => Ok (mkVKData None (Some (mkVKResponse
                (Some [mkVKVideo (Some "") (Some "") None (Some (S754_infinity false));
                       mkVKVideo (Some "ffff") (Some "http://vk.com/other.html") (Some "Other") None])))))
             _ "-123456789" "456239017"
             eq_refl eq_refl eq_refl eq_refl eq_refl eq_refl
             (mkVKResponse
                (Some [mkVKVideo (Some "") (Some "") None (Some (S754_infinity false));
                       mkVKVideo (Some "ffff") (Some "http://vk.com/other.html") (Some "Other") None]))
             (mkVKVideo (Some "") (Some "") None (Some (S754_infinity false)))
             [mkVKVideo (Some "ffff") (Some "http://vk.com/other.html") (Some "Other") None]
             eq_refl eq_refl eq_refl)
      as (r & Hr & Hs & Hsrc & _ & Hk & _ & _ & Ht & _ & Hd).
    destruct (Hk (or_intror eq_refl) _ eq_refl) as [Ha He].
    exists r. split; [exact Hr|]. split; [exact Hs|]. split; [exact Hsrc|].
    split; [exact Ha|]. split; [exact (He (or_intror eq_refl))|].
    split; [exact (Ht (or_introl eq_refl))|].
    exact (Hd (or_intror (or_intror (or_introl (ex_intro _ false eq_refl))))).
Defined.

(* ================================================================== *)
(** ** Steps 1-3: the first pattern that matches decides *)

Lemma finds2 r (sh : string -> string -> string -> Prop) :
  (forall w c, matches r w c <-> exists O V, c = [O; V] /\ sh O V w) ->
  forall url O V, contains (sh O V) url -> exists m, js_match r url = Some m.
Proof.
  intros Hr url O V (pre & w & post & -> & Hs).
  apply js_match_complete with (c := [O; V]). apply Hr. eauto.
Qed.

Arguments finds2 {r sh} _ {url O V} _.

Lemma step_ext_none url : js_match extRe url = None -> step_ext url initial = initial.
Proof. intros E. unfold step_ext. now rewrite E. Qed.

Lemma step_standard_none url p :
  js_match standardRe url = None -> step_standard url p = p.
Proof. intros E. unfold step_standard. rewrite E. now destruct (ids_missing p). Qed.

Lemma step_standard_found url m :
  js_match standardRe url = Some m ->
  ownerId (step_standard url initial) = group m 1 /\
  videoId (step_standard url initial) = group m 2.
Proof. intros E. unfold step_standard. cbn [ids_missing initial ownerId truthy_str negb orb]. now rewrite E. Qed.

Lemma step_z_found url m :
  js_match zRe url = Some m ->
  ownerId (step_z url initial) = group m 1 /\ videoId (step_z url initial) = group m 2.
Proof. intros E. unfold step_z. cbn [ids_missing initial ownerId truthy_str negb orb]. now rewrite E. Qed.

(** A step that finds both identifiers set leaves them alone. *)
Lemma step_z_skipped url p : ids_missing p = false -> step_z url p = p.
Proof. intros H. unfold step_z. now rewrite H. Qed.

(** The identifiers, by priority of the three patterns. *)
Lemma ids_priority url :
  (forall m, js_match extRe url = Some m ->
     ownerId (parse url) = group m 1 /\ videoId (parse url) = group m 2) /\
  (js_match extRe url = None -> forall m, js_match standardRe url = Some m ->
     ownerId (parse url) = group m 1 /\ videoId (parse url) = group m 2) /\
  (js_match extRe url = None -> js_match standardRe url = None ->
   forall m, js_match zRe url = Some m ->
     ownerId (parse url) = group m 1 /\ videoId (parse url) = group m 2) /\
  (js_match extRe url = None -> js_match standardRe url = None ->
   js_match zRe url = None ->
     ownerId (parse url) = None /\ videoId (parse url) = None).
Proof.
  destruct (parse_ids url) as [-> ->]. split; [|split; [|split]].
  - intros m E. pose proof E as E'.
    apply (found2 Shape.ext_iff) in E' as (w & O & V & -> & _).
    destruct (@step_ext_ids url w O V E) as [Eo Ev].
    destruct (@ids_of_step_ext url O V Eo Ev) as [Po Pv].
    destruct (parse_ids url) as [Io Iv]. rewrite <- Io, <- Iv. auto.
  - intros E1 m E2. unfold ids. rewrite (step_ext_none _ E1).
    destruct (step_standard_found _ E2) as [Eo Ev].
    pose proof E2 as E'.
    apply (found2 Shape.standard_iff) in E' as (w & O & V & -> & _).
    rewrite step_z_skipped; [auto|].
    exact (ids_not_missing (wf_step_standard url wf_initial) Eo Ev).
  - intros E1 E2 m E3. unfold ids.
    rewrite (step_ext_none _ E1), (step_standard_none _ _ E2).
    now apply step_z_found.
  - intros E1 E2 E3. now rewrite ids_none.
Qed.

(** X1: the identifiers come from the first of the three patterns that
    matches, tried in the order extension-embed, canonical path,
    query-redirect; a later pattern never replaces what an earlier one
    found, and with none matching both identifiers stay unset. *)
Theorem ids_first_match_wins url :
  (forall m, js_match extRe url = Some m ->
     ownerId (parse url) = group m 1 /\ videoId (parse url) = group m 2) /\
  (js_match extRe url = None -> forall m, js_match standardRe url = Some m ->
     ownerId (parse url) = group m 1 /\ videoId (parse url) = group m 2) /\
  (js_match extRe url = None -> js_match standardRe url = None ->
   forall m, js_match zRe url = Some m ->
     ownerId (parse url) = group m 1 /\ videoId (parse url) = group m 2) /\
  (js_match extRe url = None -> js_match standardRe url = None ->
   js_match zRe url = None ->
     ownerId (parse url) = None /\ videoId (parse url) = None).
Proof.
  destruct (parse_ids url) as [-> ->]. split; [|split; [|split]].
  - intros m E. pose proof E as E'.
    apply (found2 Shape.ext_iff) in E' as (w & O & V & -> & _).
    destruct (@step_ext_ids url w O V E) as [Eo Ev].
    destruct (@ids_of_step_ext url O V Eo Ev) as [Po Pv].
    destruct (parse_ids url) as [Io Iv]. rewrite <- Io, <- Iv. auto.
  - intros E1 m E2. unfold ids. rewrite (step_ext_none _ E1).
    destruct (step_standard_found _ E2) as [Eo Ev].
    pose proof E2 as E'.
    apply (found2 Shape.standard_iff) in E' as (w & O & V & -> & _).
    rewrite step_z_skipped; [auto|].
    exact (ids_not_missing (wf_step_standard url wf_initial) Eo Ev).
  - intros E1 E2 m E3. unfold ids.
    rewrite (step_ext_none _ E1), (step_standard_none _ _ E2).
    now apply step_z_found.
  - intros E1 E2 E3. now rewrite ids_none.
Qed.

(** X2: parsing succeeds exactly on the URLs that contain, somewhere, one
    of the three identifier shapes. *)
Theorem resolves_iff_shape url :
  ids_missing (parse url) = false <->
  (exists O V, contains (ext_shape O V) url) \/
  (exists O V, contains (standard_shape O V) url) \/
  (exists O V, contains (z_shape O V) url).
Proof.
  destruct (ids_priority url) as (H1 & H2 & H3 & H4).
  split.
  - intros Hm.
    destruct (js_match extRe url) as [m|] eqn:E1.
    { apply (found2 Shape.ext_iff) in E1 as (w & O & V & _ & _ & Hc). eauto. }
    destruct (js_match standardRe url) as [m|] eqn:E2.
    { apply (found2 Shape.standard_iff) in E2 as (w & O & V & _ & _ & Hc). eauto 6. }
    destruct (js_match zRe url) as [m|] eqn:E3.
    { apply (found2 Shape.z_iff) in E3 as (w & O & V & _ & _ & Hc). eauto 6. }
    destruct (H4 eq_refl eq_refl eq_refl) as [Eo _].
    unfold ids_missing in Hm. rewrite Eo in Hm. discriminate.
  - intros Hc.
    assert (Hs : exists m w O V, m = [w; O; V] /\
              ownerId (parse url) = group m 1 /\ videoId (parse url) = group m 2 /\
              is_signed_int O = true /\ is_digits V = true).
    { destruct (js_match extRe url) as [m|] eqn:E1.
      { destruct (H1 m eq_refl) as [Eo Ev].
        apply (found2 Shape.ext_iff) in E1 as (w & O & V & -> & [HO HV]%ext_shape_numbers & _).
        exists [w; O; V], w, O, V. auto. }
      destruct (js_match standardRe url) as [m|] eqn:E2.
      { destruct (H2 eq_refl m eq_refl) as [Eo Ev].
        apply (found2 Shape.standard_iff) in E2
          as (w & O & V & -> & [HO HV]%standard_shape_numbers & _).
        exists [w; O; V], w, O, V. auto. }
      destruct (js_match zRe url) as [m|] eqn:E3.
      { destruct (H3 eq_refl eq_refl m eq_refl) as [Eo Ev].
        apply (found2 Shape.z_iff) in E3 as (w & O & V & -> & [HO HV]%z_shape_numbers & _).
        exists [w; O; V], w, O, V. auto. }
      exfalso. destruct Hc as [(O & V & Hc)|[(O & V & Hc)|(O & V & Hc)]].
      - destruct (finds2 Shape.ext_iff Hc) as [m E]. congruence.
      - destruct (finds2 Shape.standard_iff Hc) as [m E]. congruence.
      - destruct (finds2 Shape.z_iff Hc) as [m E]. congruence. }
    destruct Hs as (m & w & O & V & -> & Eo & Ev & HO & HV).
    unfold ids_missing. rewrite Eo, Ev. cbn [group nth_error].
    now rewrite !truthy_nonempty, (signed_nonempty _ HO), (digits_nonempty _ HV).
Qed.

(* ================================================================== *)
(** ** Steps 1, 4 and 5: where the access key comes from *)

(** Whatever key step 1 adopts is the one the generic scan would find. *)
Lemma step_ext_key_cases url :
  existingAccessKey (step_ext url initial) = None \/
  existingAccessKey (step_ext url initial) = hash_param url.
Proof.
  destruct (js_match extRe url) as [m|] eqn:E.
  - right. exact (@step_ext_key url m E).
  - left. now rewrite step_ext_none.
Qed.

(** The key, by priority of its two sources. *)
Lemma key_priority url :
  existingAccessKey (parse url) =
    match path_key url with
    | Some K => Some K
    | None => hash_param url
    end.
Proof.
  rewrite parse_key. destruct (path_key url) as [K|]; [reflexivity|].
  destruct (step_ext_key_cases url) as [-> | ->]; [reflexivity|].
  now destruct (hash_param url).
Qed.

(** X3: the access key is the token in the path when the URL has one, and
    otherwise the token of the first [hash=] parameter -- whether or not
    the extension-embed pattern matched: the [hash] look-up of step 1
    never changes the outcome. *)
Theorem key_from_path_else_hash url :
  existingAccessKey (parse url) =
    match path_key url with
    | Some K => Some K
    | None => hash_param url
    end.
Proof.
  rewrite parse_key. destruct (path_key url) as [K|]; [reflexivity|].
  destruct (step_ext_key_cases url) as [-> | ->]; [reflexivity|].
  now destruct (hash_param url).
Qed.

(** X4: the parser returns an access key exactly for the URLs that
    contain [video<int>_<int>_<hex>] or a [?hash=<hex>] / [&hash=<hex>]
    parameter, whether or not the identifiers were found. *)
Theorem key_iff_shape url :
  (exists k, existingAccessKey (parse url) = Some k) <->
  (exists K, contains (key_shape K) url) \/ (exists K, contains (hash_shape K) url).
Proof.
  rewrite key_priority. split.
  - intros [k Hk]. destruct (path_key url) as [K|] eqn:E.
    + left. exists K. destruct (path_key_max _ E) as (pre & w & post & -> & Hs & _).
      now exists pre, w, post.
    + right. exists k. now apply hash_param_some.
  - intros [[K H]|[K H]].
    + destruct (@path_key_finds url K H) as [K' ->]. eauto.
    + destruct (path_key url) as [K'|]; [eauto|].
      destruct (@hash_param_finds url K H) as [K' ->]. eauto.
Qed.

(* ================================================================== *)
(** ** Steps 2 and 3: the canonical path and the query redirect *)

Lemma starts_ci_extend W1 W2 : forall s,
  starts_ci W1 s = false -> starts_ci (W1 ++ W2) s = false.
Proof.
  induction W1 as [|d W1 IH]; intros [|x s] H; simpl in *; try discriminate.
  - reflexivity.
  - destruct (Chr.eqb_ci x d); [now apply IH | reflexivity].
Qed.

(** [match] skips every start before the first occurrence of a literal
    the pattern cannot do without. *)
Lemma js_match_skip_to W r pre : forall s,
  (forall t, starts_ci W t = false -> match_here r t = None) ->
  index_ci W (pre ++ s) = Some (String.length pre) ->
  js_match r (pre ++ s) = js_match r s.
Proof.
  intros s Hr. induction pre as [|x pre IH]; intros H; [reflexivity|].
  cbn [append String.length index_ci] in H.
  destruct (starts_ci W (String x (pre ++ s))) eqn:E; [discriminate|].
  destruct (index_ci W (pre ++ s)) as [n|] eqn:En; [|discriminate].
  injection H as ->.
  cbn [append]. rewrite js_match_skip by now apply Hr.
  now apply IH.
Qed.

(** Every host of the canonical pattern begins with [vk]. *)
Lemma standard_needs_vk t : starts_ci "vk" t = false -> match_here standardRe t = None.
Proof.
  intros H. unfold match_here, standardRe. cbn [run].
  rewrite (@run_lit_fail _ "vk.com") by exact (starts_ci_extend "vk" ".com" t H).
  rewrite (@run_lit_fail _ "vk.ru") by exact (starts_ci_extend "vk" ".ru" t H).
  now rewrite (@run_lit_fail _ "vkvideo.ru") by exact (starts_ci_extend "vk" "video.ru" t H).
Qed.

(** What follows the host: [/video], the two numbers and the underscore
    between them. *)
Lemma run_path_here (A : Type) M O V rest cs (k : string -> captures -> option A) res :
  eq_ci M "/video" = true ->
  is_signed_int O = true -> is_digits V = true ->
  starts_with Chr.is_digit rest = false ->
  k rest (cs ++ [O; V])%list = Some res ->
  run (Seq (lit "/video") (Seq (Group signed_int) (Seq (lit "_") (Group digits1))))
      (M ++ O ++ "_" ++ V ++ rest) cs k = Some res.
Proof.
  intros HM HO HV Hr Hk.
  rewrite run_seq_lit_ok by exact HM.
  change (run (Group signed_int) (O ++ "_" ++ V ++ rest) cs
            (fun s1 cs1 => run (Seq (lit "_") (Group digits1)) s1 cs1 k) = Some res).
  apply run_group_signed; [exact HO | reflexivity |].
  rewrite (@run_seq_lit_ok _ "_" (Group digits1) "_") by reflexivity.
  apply run_group_digits; [exact HV | exact Hr |].
  now rewrite <- app_assoc.
Qed.

(** A string equal to [W'] up to case does not begin with a literal that
    differs from [W'] within the length of [W']. *)
Lemma starts_ci_clash W' : forall h W t,
  eq_ci h W' = true ->
  starts_ci (Str.take (String.length W') W) W' = false ->
  starts_ci W (h ++ t) = false.
Proof.
  induction W' as [|d W' IH]; intros [|x h] W t Hh Hc; simpl in Hh; try discriminate.
  apply andb_true_iff in Hh as [Hx Hh].
  destruct W as [|e W]; [simpl in Hc; discriminate|].
  cbn [String.length Str.take starts_ci append] in *.
  destruct (Chr.eqb_ci x e) eqn:He; [|reflexivity].
  assert (Hde : Chr.eqb_ci d e = true).
  { unfold Chr.eqb_ci in *. apply Ascii.eqb_eq in Hx, He. apply Ascii.eqb_eq. congruence. }
  rewrite Hde in Hc. simpl in *. now apply IH.
Qed.

Lemma run_standard_here (A : Type) h M O V rest cs (k : string -> captures -> option A) res :
  is_host h = true -> eq_ci M "/video" = true ->
  is_signed_int O = true -> is_digits V = true ->
  starts_with Chr.is_digit rest = false ->
  k rest (cs ++ [O; V])%list = Some res ->
  run standardRe (h ++ M ++ O ++ "_" ++ V ++ rest) cs k = Some res.
Proof.
  intros Hh HM HO HV Hr Hk.
  pose proof (@run_path_here A M O V rest cs k res HM HO HV Hr Hk) as Hp.
  unfold standardRe.
  set (R := Seq (lit "/video") (Seq (Group signed_int) (Seq (lit "_") (Group digits1)))) in *.
  cbn [run]. fold (@run A).
  unfold is_host in Hh.
  destruct (eq_ci h "vk.com") eqn:H1.
  { now rewrite run_lit_ok, Hp. }
  destruct (eq_ci h "vk.ru") eqn:H2.
  { rewrite (@run_lit_fail _ "vk.com") by exact (@starts_ci_clash "vk.ru" h "vk.com" _ H2 eq_refl).
    now rewrite run_lit_ok, Hp. }
  simpl in Hh.
  rewrite (@run_lit_fail _ "vk.com")
    by exact (@starts_ci_clash "vkvideo.ru" h "vk.com" _ Hh eq_refl).
  rewrite (@run_lit_fail _ "vk.ru")
    by exact (@starts_ci_clash "vkvideo.ru" h "vk.ru" _ Hh eq_refl).
  now rewrite run_lit_ok, Hp.
Qed.

(** X5: for a URL the extension-embed pattern does not match, whose first
    [vk] begins one of the hosts [vk.com], [vk.ru], [vkvideo.ru] (in any
    case) followed by [/video<signed int>_<int>] and then something other
    than a digit, the parser returns that owner and that video. *)
Theorem canonical_path_ids pre h M O V rest :
  js_match extRe (standard_url pre h M O V rest) = None ->
  index_ci "vk" (standard_url pre h M O V rest) = Some (String.length pre) ->
  is_host h = true ->
  eq_ci M "/video" = true ->
  is_signed_int O = true ->
  is_digits V = true ->
  starts_with Chr.is_digit rest = false ->
  ownerId (parse (standard_url pre h M O V rest)) = Some O /\
  videoId (parse (standard_url pre h M O V rest)) = Some V.
Proof.
  intros Hext Hfirst Hh HM HO HV Hr.
  destruct (ids_priority (standard_url pre h M O V rest)) as (_ & H2 & _).
  assert (E : exists w, js_match standardRe (standard_url pre h M O V rest) = Some [w; O; V]).
  { eexists. unfold standard_url in *.
    rewrite (@js_match_skip_to "vk" standardRe pre _ standard_needs_vk Hfirst).
    apply js_match_here. unfold match_here.
    apply run_standard_here; try assumption. reflexivity. }
  destruct E as [w E]. exact (H2 Hext _ E).
Qed.

Lemma canonical_path_ids_witness :
  let url := "https://VKvideo.ru/Video-123456789_456239017?list=abc" in
  ownerId (parse url) = Some "-123456789" /\ videoId (parse url) = Some "456239017".
Proof.
  exact (@canonical_path_ids "https://" "VKvideo.ru" "/Video" "-123456789" "456239017"
           "?list=abc" eq_refl eq_refl eq_refl eq_refl eq_refl eq_refl eq_refl).
Defined.

Lemma run_z_here (A : Type) M O V rest cs (k : string -> captures -> option A) res :
  eq_ci M "video?z=video" = true ->
  is_signed_int O = true -> is_digits V = true ->
  starts_with Chr.is_digit rest = false ->
  k rest (cs ++ [O; V])%list = Some res ->
  run zRe (M ++ O ++ "_" ++ V ++ rest) cs k = Some res.
Proof.
  intros HM HO HV Hr Hk. unfold zRe.
  rewrite run_seq_lit_ok by exact HM.
  change (run (Group signed_int) (O ++ "_" ++ V ++ rest) cs
            (fun s1 cs1 => run (Seq (lit "_") (Group digits1)) s1 cs1 k) = Some res).
  apply run_group_signed; [exact HO | reflexivity |].
  rewrite (@run_seq_lit_ok _ "_" (Group digits1) "_") by reflexivity.
  apply run_group_digits; [exact HV | exact Hr |].
  now rewrite <- app_assoc.
Qed.

(** X6: for a URL neither the extension-embed nor the canonical pattern
    matches, whose first [video?z=video] (in any case) is followed by
    [<signed int>_<int>] and then something other than a digit, the parser
    returns that owner and that video. *)
Theorem query_redirect_ids pre M O V rest :
  js_match extRe (z_url pre M O V rest) = None ->
  js_match standardRe (z_url pre M O V rest) = None ->
  index_ci "video?z=video" (z_url pre M O V rest) = Some (String.length pre) ->
  eq_ci M "video?z=video" = true ->
  is_signed_int O = true ->
  is_digits V = true ->
  starts_with Chr.is_digit rest = false ->
  ownerId (parse (z_url pre M O V rest)) = Some O /\
  videoId (parse (z_url pre M O V rest)) = Some V.
Proof.
  intros Hext Hstd Hfirst HM HO HV Hr.
  destruct (ids_priority (z_url pre M O V rest)) as (_ & _ & H3 & _).
  assert (E : exists w, js_match zRe (z_url pre M O V rest) = Some [w; O; V]).
  { eexists. unfold z_url, zRe in *. rewrite js_match_first by exact Hfirst.
    apply js_match_here. unfold match_here.
    apply (@run_z_here _ M O V rest); try assumption. reflexivity. }
  destruct E as [w E]. exact (H3 Hext Hstd _ E).
Qed.

Lemma query_redirect_ids_witness :
  let url := "https://vk.com/video?z=video-999_111%2Fpl_cat" in
  ownerId (parse url) = Some "-999" /\ videoId (parse url) = Some "111".
Proof.
  exact (@query_redirect_ids "https://vk.com/" "video?z=video" "-999" "111" "%2Fpl_cat"
           eq_refl eq_refl eq_refl eq_refl eq_refl eq_refl eq_refl).
Defined.

(* ================================================================== *)
(** ** The rewrites of the player URL *)

(** Appending cannot complete a prefix with a character the prefix does
    not have. *)
Lemma prefix_append_inv n : forall u c t,
  String.prefix n (u ++ String c t) = true ->
  String.prefix n u = true \/ In c (list_ascii_of_string n).
Proof.
  induction n as [|a n IH]; intros u c t H.
  - left. apply prefix_nil.
  - destruct u as [|b u]; cbn [append String.prefix] in H.
    + destruct (ascii_dec a c) as [->|]; [|discriminate]. right. now left.
    + destruct (ascii_dec a b) as [->|] eqn:E; [|discriminate].
      destruct (IH _ _ _ H) as [Hp|Hi].
      * left. cbn [String.prefix]. now rewrite E.
      * right. now right.
Qed.

Lemma no_http_append u c t :
  String.prefix "http:" u = false -> is_param_sep c = true ->
  String.prefix "http:" (u ++ String c t) = false.
Proof.
  intros Hu Hc. destruct (String.prefix "http:" (u ++ String c t)) eqn:E; [|reflexivity].
  apply prefix_append_inv in E as [E|E]; [congruence|].
  unfold is_param_sep in Hc. apply orb_true_iff in Hc as [Hc|Hc];
    apply Ascii.eqb_eq in Hc; subst c; simpl in E;
    repeat (destruct E as [E|E]; [discriminate|]); contradiction.
Qed.

Lemma ensure_https_no_http u : String.prefix "http:" (ensure_https u) = false.
Proof.
  unfold ensure_https. destruct (String.prefix "http:" u) eqn:E; [|exact E].
  now destruct (Str.drop 5 u).
Qed.

Lemma add_hd_spec u :
  Str.includes "hd=" (add_hd u) = true /\
  (String.prefix "http:" u = false -> String.prefix "http:" (add_hd u) = false) /\
  (Str.includes "hd=" u = true -> add_hd u = u).
Proof.
  unfold add_hd. destruct (Str.includes "hd=" u) eqn:E; cbn [negb]; [auto|].
  split; [|split; [|discriminate]].
  - apply includes_append_r. now destruct (Str.includes "?" u).
  - intros H. destruct (Str.includes "?" u); now apply no_http_append.
Qed.

Lemma add_autoplay_spec u :
  Str.includes "autoplay=" (add_autoplay u) = true /\
  (String.prefix "http:" u = false -> String.prefix "http:" (add_autoplay u) = false) /\
  (Str.includes "hd=" u = true -> Str.includes "hd=" (add_autoplay u) = true) /\
  (Str.includes "autoplay=" u = true -> add_autoplay u = u).
Proof.
  unfold add_autoplay. destruct (Str.includes "autoplay=" u) eqn:E; cbn [negb]; [auto|].
  split; [|split; [|split; [|discriminate]]].
  - now apply includes_append_r.
  - intros H. now apply no_http_append.
  - apply includes_append_l.
Qed.

Lemma player_url_normalised u : normalised (add_autoplay (add_hd (ensure_https u))).
Proof.
  destruct (add_hd_spec (ensure_https u)) as (H1 & H2 & _).
  destruct (add_autoplay_spec (add_hd (ensure_https u))) as (A1 & A2 & A3 & _).
  pose proof (ensure_https_no_http u) as H0.
  repeat split; auto.
Qed.

Lemma hash_embed_url_normalised p key : normalised (hash_embed_url p key).
Proof.
  unfold hash_embed_url, normalised. split; [|split].
  - reflexivity.
  - do 6 apply includes_append_r. reflexivity.
  - do 6 apply includes_append_r. reflexivity.
Qed.

Lemma public_embed_url_normalised p : normalised (public_embed_url p).
Proof.
  unfold public_embed_url, normalised. split; [|split].
  - reflexivity.
  - do 4 apply includes_append_r. reflexivity.
  - do 4 apply includes_append_r. reflexivity.
Qed.

(** X7: whatever the provider replies, an embed URL the synthesizer
    returns never begins with [http:] and always contains [hd=] and
    [autoplay=] -- on the player branch, on the two constructed URLs and
    on the fallback alike. *)
Theorem embed_url_always_normalised p vkData e :
  body_field "embedUrl" (synthesize p vkData) = Some (JStr e) -> normalised e.
Proof.
  unfold synthesize.
  destruct (error vkData) as [vkError|].
  - destruct (truthy_str (existingAccessKey p)).
    + unfold fallback_response. rewrite body_field_json. cbn. intros [= <-].
      apply hash_embed_url_normalised.
    + rewrite body_field_json. destruct (error_code vkError); discriminate.
  - cbv zeta. destruct (videos_of vkData) as [|video others].
    + destruct (truthy_str (existingAccessKey p)).
      * unfold fallback_response. rewrite body_field_json. cbn. intros [= <-].
        apply hash_embed_url_normalised.
      * discriminate.
    + rewrite body_field_json. cbn [stringify as_sent lookup String.eqb Ascii.eqb Bool.eqb].
      intros [= <-]. unfold embed_url.
      destruct (truthy_str (player video)); [apply player_url_normalised|].
      destruct (truthy_str (or_else (access_key video) (existingAccessKey p)));
        [apply hash_embed_url_normalised | apply public_embed_url_normalised].
Qed.

Lemma embed_url_always_normalised_witness :
  let p := parse "https://vk.com/video-1_2" in
  let vkData := mkVKData None (Some (mkVKResponse (Some
                  [mkVKVideo None (Some "http://vk.com/video_ext.php?oid=-1&id=2") None None]))) in
  let e := "https://vk.com/video_ext.php?oid=-1&id=2&hd=2&autoplay=0" in
  body_field "embedUrl" (synthesize p vkData) = Some (JStr e) /\ normalised e.
Proof.
  split; [reflexivity|].
  exact (@embed_url_always_normalised (parse "https://vk.com/video-1_2")
           (mkVKData None (Some (mkVKResponse (Some
              [mkVKVideo None (Some "http://vk.com/video_ext.php?oid=-1&id=2") None None]))))
           "https://vk.com/video_ext.php?oid=-1&id=2&hd=2&autoplay=0" eq_refl).
Defined.

(** X8: the three rewrites of the player branch are idempotent: applied
    to their own result they change nothing, so an embed URL handed back
    as a player URL comes out as it went in. *)
Theorem player_rewrites_idempotent u :
  let e := add_autoplay (add_hd (ensure_https u)) in
  add_autoplay (add_hd (ensure_https e)) = e.
Proof.
  intros e. destruct (player_url_normalised u) as (H0 & H1 & H2). fold e in H0, H1, H2.
  rewrite (ensure_https_other _ H0).
  destruct (add_hd_spec e) as (_ & _ & ->); [|exact H1].
  destruct (add_autoplay_spec e) as (_ & _ & _ & ->); [reflexivity | exact H2].
Qed.

(* ================================================================== *)
(** ** The decision table of the synthesizer *)

(** X9: once the provider has replied, the answer is a 200 exactly when
    an access key was found in the URL or the reply has no [error] and at
    least one record; [source] is ["vk_api"] exactly in the second case
    and ["fallback"] exactly when only the first holds. *)
Theorem synthesize_decision p vkData :
  let r := synthesize p vkData in
  let has_record := error vkData = None /\ videos_of vkData <> [] in
  (status r = 200 <-> truthy_str (existingAccessKey p) = true \/ has_record) /\
  (body_field "source" r = Some (JStr "vk_api") <-> has_record) /\
  (body_field "source" r = Some (JStr "fallback") <->
     truthy_str (existingAccessKey p) = true /\ ~ has_record).
Proof.
  cbv zeta. unfold synthesize, fallback_response.
  destruct (error vkData) as [vkError|];
    [|cbv zeta; destruct (videos_of vkData) as [|video others]];
    destruct (truthy_str (existingAccessKey p)); rewrite ?body_field_json;
    try destruct (error_code vkError);
    cbn [stringify as_sent lookup String.eqb Ascii.eqb Bool.eqb status json_response option_map];
    intuition congruence.
Qed.

(* ================================================================== *)
(** ** The handler's other branches *)

Lemma videoUrl_of_some req v :
  videoUrl_of req = Some v ->
  exists fields, json_body req = Ok (JObj fields) /\ lookup "videoUrl" fields = Some v.
Proof.
  unfold videoUrl_of. destruct (json_body req) as [[| | | | |fields]|]; try discriminate. eauto.
Qed.

(** X10: with a URL on which parsing succeeds but no credential in the
    environment -- the variable unset, or set to the empty string -- the
    handler answers 500 "VK API not configured" without calling the
    provider. *)
Theorem not_configured_rejected env req url :
  String.eqb (method req) "OPTIONS" = false ->
  videoUrl_of req = Some (JStr url) ->
  ids_missing (parse url) = false ->
  truthy_str env = false ->
  answers_locally (handler env req) not_configured_response /\
  status not_configured_response = 500 /\
  body_field "error" not_configured_response = Some (JStr "VK API not configured").
Proof.
  intros Hm Hu Hp He. split; [|split; reflexivity].
  unfold answers_locally.
  rewrite (@handler_local env req (Some (JStr url)) Hm (videoUrl_of_some _ Hu)).
  destruct url as [|c u]; [now rewrite ids_missing_empty in Hp|].
  cbv zeta. now rewrite Hp, He.
Qed.

Lemma not_configured_rejected_witness :
  let req := mkRequest "POST" (Ok (JObj [("videoUrl", JStr "https://vk.com/video-1_2")])) in
  answers_locally (handler (Some "") req) not_configured_response /\
  status not_configured_response = 500 /\
  body_field "error" not_configured_response = Some (JStr "VK API not configured").
Proof.
  exact (@not_configured_rejected (Some "")
           (mkRequest "POST" (Ok (JObj [("videoUrl", JStr "https://vk.com/video-1_2")])))
           "https://vk.com/video-1_2" eq_refl eq_refl eq_refl eq_refl).
Defined.

(** X11: when the call to the provider fails -- [fetch] rejects, or the
    reply is not JSON -- the handler answers 500 "Internal server error"
    with the failure as [details], also when an access key was found in
    the URL: the fallback is for replies, not for failed calls. *)
Theorem provider_failure_is_internal_error env req url provider e :
  String.eqb (method req) "OPTIONS" = false ->
  videoUrl_of req = Some (JStr url) ->
  ids_missing (parse url) = false ->
  truthy_str env = true ->
  provider (vkApiUrl (parse url) env) = Rejected e ->
  exec provider (handler env req) = Ok (internal_error_response e) /\
  status (internal_error_response e) = 500 /\
  body_field "error" (internal_error_response e) = Some (JStr "Internal server error") /\
  body_field "details" (internal_error_response e) = Some (JStr e) /\
  body_field "embedUrl" (internal_error_response e) = None.
Proof.
  intros Hm Hu Hp He Hr.
  rewrite (@exec_resolved env req url provider Hm Hu Hp He), Hr. repeat split.
Qed.

Lemma provider_failure_is_internal_error_witness :
  let url := "https://vk.com/video-123456789_456239017_deadbeef" in
  let req := mkRequest "POST" (Ok (JObj [("videoUrl", JStr url)])) in
  let provider := fun _ : string => @Rejected VKData "TypeError: error sending request" in
  existingAccessKey (parse url) = Some "deadbeef" /\
  exec provider (handler (Some "token") req)
    = Ok (internal_error_response "TypeError: error sending request").
Proof.
  split; [reflexivity|].
  exact (proj1 (@provider_failure_is_internal_error (Some "token")
           (mkRequest "POST"
              (Ok (JObj [("videoUrl", JStr "https://vk.com/video-123456789_456239017_deadbeef")])))
           "https://vk.com/video-123456789_456239017_deadbeef"
           (fun _ => Rejected "TypeError: error sending request")
           "TypeError: error sending request"
           eq_refl eq_refl eq_refl eq_refl eq_refl)).
Defined.

(** X12: a request body that is not JSON, or is the JSON [null], is
    answered 500 "Internal server error"; a body that is JSON but not an
    object (a number, a string, a boolean, an array) is answered like a
    body without [videoUrl], 400.  None of them reaches the provider. *)
Theorem malformed_body env req :
  String.eqb (method req) "OPTIONS" = false ->
  (forall e, json_body req = Rejected e ->
     answers_locally (handler env req) (internal_error_response e)) /\
  (json_body req = Ok JNull ->
     exists e, answers_locally (handler env req) (internal_error_response e)) /\
  (forall value, json_body req = Ok value ->
     match value with JNull | JObj _ => false | _ => true end = true ->
     answers_locally (handler env req) missing_response).
Proof.
  intros Hm. unfold answers_locally, handler, try_block. rewrite Hm.
  split; [|split].
  - now intros e ->.
  - intros ->. eexists. reflexivity.
  - intros value -> Hv. now destruct value.
Qed.

Lemma malformed_body_witness :
  answers_locally (handler None (mkRequest "POST" (Rejected "SyntaxError: Unexpected token")))
                  (internal_error_response "SyntaxError: Unexpected token") /\
  answers_locally (handler None (mkRequest "POST" (Ok (JArr [JStr "https://vk.com/video-1_2"]))))
                  missing_response.
Proof.
  split.
  - exact (proj1 (@malformed_body None
             (mkRequest "POST" (Rejected "SyntaxError: Unexpected token")) eq_refl)
             "SyntaxError: Unexpected token" eq_refl).
  - exact (proj2 (proj2 (@malformed_body None
             (mkRequest "POST" (Ok (JArr [JStr "https://vk.com/video-1_2"]))) eq_refl))
             (JArr [JStr "https://vk.com/video-1_2"]) eq_refl eq_refl).
Defined.

(** X13: a [videoUrl] that is truthy but not a string -- [true], a
    non-zero number, any array, any object -- is not rejected as missing:
    the first [match] throws and the handler answers 500 "Internal server
    error", without calling the provider. *)
Theorem non_string_videoUrl_is_internal_error env req v :
  String.eqb (method req) "OPTIONS" = false ->
  videoUrl_of req = Some v ->
  truthy v = true ->
  match v with JStr _ => false | _ => true end = true ->
  exists e, answers_locally (handler env req) (internal_error_response e) /\
            status (internal_error_response e) = 500.
Proof.
  intros Hm Hu Hv Hs. eexists. split; [|reflexivity]. unfold answers_locally.
  rewrite (@handler_local env req (Some v) Hm (videoUrl_of_some _ Hu)).
  destruct v as [|b|n|s|l|f]; try discriminate; rewrite Hv; reflexivity.
Qed.

Lemma non_string_videoUrl_is_internal_error_witness :
  let req := mkRequest "POST" (Ok (JObj [("videoUrl", JArr [])])) in
  exists e, answers_locally (handler (Some "token") req) (internal_error_response e) /\
            status (internal_error_response e) = 500.
Proof.
  exact (@non_string_videoUrl_is_internal_error (Some "token")
           (mkRequest "POST" (Ok (JObj [("videoUrl", JArr [])])))
           (JArr []) eq_refl eq_refl eq_refl eq_refl).
Defined.

(* ================================================================== *)
(** ** The call to the provider *)

(** When, and with what, the provider is called. *)
Lemma calls_discipline env req provider :
  calls provider (handler env req) = [] \/
  exists url,
    String.eqb (method req) "OPTIONS" = false /\
    videoUrl_of req = Some (JStr url) /\
    ids_missing (parse url) = false /\
    truthy_str env = true /\
    calls provider (handler env req) = [vkApiUrl (parse url) env].
Proof.
  unfold handler, videoUrl_of.
  destruct (String.eqb (method req) "OPTIONS"); [now left|].
  unfold try_block.
  destruct (json_body req) as [value|e]; [|now left].
  cbn [settle bind].
  destruct value as [|b|n|s|l|fields]; try now left.
  cbn [destructure_videoUrl bind].
  destruct (lookup "videoUrl" fields) as [v|]; [|now left].
  destruct (truthy v) eqn:Hv; cbn [negb]; [|now left].
  destruct v as [|b|n|url|l|f]; try now left.
  cbn [match_receiver bind].
  destruct (ids_missing (parse url)) eqn:Hi; [now left|].
  destruct (truthy_str env) eqn:He; cbn [negb]; [|now left].
  right. exists url. do 4 (split; [first [reflexivity | assumption]|]).
  cbn [fetch_json bind try_catch calls].
  now destruct (provider (vkApiUrl (parse url) env)).
Qed.

(** X14: the handler calls the provider at most once, never again after a
    failure or an empty reply; and it calls it only for a request that is
    not a preflight, carries a string on which parsing succeeds, with the
    credential configured -- then with the URL built from what was
    parsed. *)
Theorem provider_called_at_most_once env req provider :
  calls provider (handler env req) = [] \/
  exists url,
    String.eqb (method req) "OPTIONS" = false /\
    videoUrl_of req = Some (JStr url) /\
    ids_missing (parse url) = false /\
    truthy_str env = true /\
    calls provider (handler env req) = [vkApiUrl (parse url) env].
Proof.
  unfold handler, videoUrl_of.
  destruct (String.eqb (method req) "OPTIONS"); [now left|].
  unfold try_block.
  destruct (json_body req) as [value|e]; [|now left].
  cbn [settle bind].
  destruct value as [|b|n|s|l|fields]; try now left.
  cbn [destructure_videoUrl bind].
  destruct (lookup "videoUrl" fields) as [v|]; [|now left].
  destruct (truthy v) eqn:Hv; cbn [negb]; [|now left].
  destruct v as [|b|n|url|l|f]; try now left.
  cbn [match_receiver bind].
  destruct (ids_missing (parse url)) eqn:Hi; [now left|].
  destruct (truthy_str env) eqn:He; cbn [negb]; [|now left].
  right. exists url. do 4 (split; [first [reflexivity | assumption]|]).
  cbn [fetch_json bind try_catch calls].
  now destruct (provider (vkApiUrl (parse url) env)).
Qed.

Lemma vkApiUrl_spelled p o v token :
  well_formed p -> ownerId p = Some o -> videoId p = Some v ->
  vkApiUrl p (Some token) =
    "https://api.vk.com/method/video.get?videos=" ++ o ++ "_" ++ v
      ++ match existingAccessKey p with Some k => "_" ++ k | None => "" end
      ++ "&access_token=" ++ token ++ "&v=5.199".
Proof.
  intros Hw Eo Ev. unfold vkApiUrl, videoIdentifier. rewrite Eo, Ev. cbn [tmpl].
  destruct (existingAccessKey p) as [k|] eqn:Ek.
  - assert (Ht : truthy_str (Some k) = true).
    { rewrite <- Ek. apply wf_key_truthy; eauto. }
    rewrite Ht. cbn [tmpl]. now rewrite !append_assoc.
  - cbn [truthy_str]. now rewrite !append_assoc.
Qed.

(** X15: for a request that resolves, the one URL asked of the provider
    is [video.get] with [videos=<owner>_<video>], followed by [_<key>]
    exactly when an access key was found in the URL, then the credential
    and the API version. *)
Theorem provider_lookup_url token req url provider o v :
  String.eqb (method req) "OPTIONS" = false ->
  videoUrl_of req = Some (JStr url) ->
  ownerId (parse url) = Some o ->
  videoId (parse url) = Some v ->
  nonempty token = true ->
  calls provider (handler (Some token) req) =
    [ "https://api.vk.com/method/video.get?videos=" ++ o ++ "_" ++ v
        ++ match existingAccessKey (parse url) with Some k => "_" ++ k | None => "" end
        ++ "&access_token=" ++ token ++ "&v=5.199" ].
Proof.
  intros Hm Hu Eo Ev Ht.
  pose proof (ids_not_missing (wf_parse url) Eo Ev) as Hi.
  destruct (calls_discipline (Some token) req provider)
    as [Hc | (url' & _ & Hu' & _ & _ & Hc)].
  - exfalso. revert Hc. unfold handler, try_block. rewrite Hm.
    destruct (videoUrl_of_some _ Hu) as (fields & -> & Hl).
    cbn [settle bind destructure_videoUrl]. rewrite Hl.
    assert (Hn : truthy (JStr url) = true).
    { destruct url; [|reflexivity]. now rewrite ids_missing_empty in Hi. }
    rewrite Hn. cbn [negb match_receiver bind]. rewrite Hi, truthy_nonempty, Ht.
    cbn [negb fetch_json bind try_catch calls]. discriminate.
  - rewrite Hu in Hu'. injection Hu' as <-.
    now rewrite Hc, (vkApiUrl_spelled token (wf_parse url) Eo Ev).
Qed.

Lemma provider_lookup_url_witness :
  let url := "https://vk.com/video-123456789_456239017_deadbeef" in
  let req := mkRequest "POST" (Ok (JObj [("videoUrl", JStr url)])) in
  calls (fun _ => Rejected "offline") (handler (Some "token") req) =
    [ "https://api.vk.com/method/video.get?videos=-123456789_456239017_deadbeef&access_token=token&v=5.199" ].
Proof.
  exact (@provider_lookup_url "token"
           (mkRequest "POST"
              (Ok (JObj [("videoUrl", JStr "https://vk.com/video-123456789_456239017_deadbeef")])))
           "https://vk.com/video-123456789_456239017_deadbeef"
           (fun _ => Rejected "offline") "-123456789" "456239017"
           eq_refl eq_refl eq_refl eq_refl eq_refl).
Defined.

(* ================================================================== *)
(** ** The three kinds of answer *)

Lemma synthesize_classified p vkData :
  is_success (synthesize p vkData) \/ is_failure (synthesize p vkData).
Proof.
  unfold synthesize, fallback_response, is_success, is_failure.
  destruct (error vkData) as [vkError|];
    [|cbv zeta; destruct (videos_of vkData) as [|video others]];
    destruct (truthy_str (existingAccessKey p)); rewrite ?body_field_json, ?jstr_or_else;
    try destruct (error_code vkError);
    cbn [stringify as_sent lookup String.eqb Ascii.eqb Bool.eqb status json_response option_map];
    first [ left; repeat split; eexists; reflexivity
          | right; split; [auto|]; repeat split; eexists; reflexivity ].
Qed.

Lemma is_failure_local st (msg : string) rest :
  (st = 400 \/ st = 404 \/ st = 500) ->
  lookup "success" (stringify rest) = None ->
  lookup "embedUrl" (stringify rest) = None ->
  is_failure (json_response st (("error", Some (JStr msg)) :: rest)).
Proof.
  intros Hs H1 H2. unfold is_failure. rewrite !body_field_json.
  cbn [stringify as_sent lookup String.eqb Ascii.eqb Bool.eqb status json_response].
  repeat split; eauto.
Qed.

(** X16: every answer of the handler is of one of three kinds: to a
    preflight, a 200 without body; otherwise either a 200 whose body has
    [success: true] and an [embedUrl] and no [error], or a 400, 404 or 500
    whose body has an [error] text and neither [success] nor
    [embedUrl]. *)
Theorem every_answer_classified env req provider :
  exists r, exec provider (handler env req) = Ok r /\
    if String.eqb (method req) "OPTIONS"
    then is_preflight_answer r
    else is_success r \/ is_failure r.
Proof.
  unfold handler.
  destruct (String.eqb (method req) "OPTIONS").
  { eexists. split; [reflexivity | split; reflexivity]. }
  assert (Hmissing : is_failure missing_response)
    by (apply is_failure_local; auto).
  assert (Hinternal : forall e, is_failure (internal_error_response e))
    by (intros e; apply is_failure_local; auto).
  assert (Hinvalid : forall v, is_failure (invalid_response v))
    by (intros v; apply is_failure_local; auto).
  assert (Hconf : is_failure not_configured_response)
    by (apply is_failure_local; auto).
  assert (Hlocal : forall r, is_failure r ->
            exists r', exec provider (Pure r) = Ok r' /\ (is_success r' \/ is_failure r'))
    by (intros r Hr; exists r; auto).
  unfold try_block.
  destruct (json_body req) as [value|e]; cbn [settle bind try_catch]; [|now apply Hlocal].
  destruct value as [|b|n|s|l|fields];
    cbn [destructure_videoUrl bind try_catch negb]; try (now apply Hlocal).
  destruct (lookup "videoUrl" fields) as [v|]; cbn [negb]; [|now apply Hlocal].
  destruct (truthy v) eqn:Hv; cbn [negb]; [|now apply Hlocal].
  destruct v as [|b|n|url|l|f]; cbn [match_receiver bind try_catch]; try (now apply Hlocal).
  destruct (ids_missing (parse url)); [now apply Hlocal|].
  destruct (negb (truthy_str env)); [now apply Hlocal|].
  cbn [fetch_json bind try_catch exec].
  destruct (provider (vkApiUrl (parse url) env)) as [vkData|e];
    cbn [settle bind try_catch exec]; [|now apply Hlocal].
  eexists. split; [reflexivity | apply synthesize_classified].
Qed.

(* ================================================================== *)
(** ** Steps 4 and 5: which token is the key *)

Section KeyPriorities.
Variable A : Type.
Implicit Types (k : string -> captures -> option A).

(** [(a+)] takes the whole run when what follows accepts. *)
Lemma run_group_plus a V T cs k res :
  nonempty V && Str.all (amatch a) V = true ->
  starts_with (amatch a) T = false ->
  k T (cs ++ [V])%list = Some res ->
  run (Group (Plus a)) (V ++ T) cs k = Some res.
Proof.
  intros HV HT Hk. destruct V as [|x V]; [discriminate|].
  cbn [nonempty Str.all andb] in HV. apply andb_true_iff in HV as [Hx HV].
  cbn [run append]. rewrite Hx.
  apply star_max; [exact HV | exact HT |].
  change (String x (V ++ T)) with (String x V ++ T). now rewrite between_append.
Qed.

Lemma run_digits1 V T cs k res :
  is_digits V = true -> starts_with Chr.is_digit T = false ->
  k T cs = Some res -> run digits1 (V ++ T) cs k = Some res.
Proof.
  intros HV HT Hk. destruct V as [|x V]; [discriminate|].
  unfold is_digits in HV. cbn [nonempty Str.all andb] in HV.
  apply andb_true_iff in HV as [Hx HV].
  unfold digits1. cbn [run append]. change (amatch Digit x) with (Chr.is_digit x).
  rewrite Hx. now apply star_max.
Qed.

Lemma run_signed_int O T cs k res :
  is_signed_int O = true -> starts_with Chr.is_digit T = false ->
  k T cs = Some res -> run signed_int (O ++ T) cs k = Some res.
Proof.
  intros HO HT Hk. destruct O as [|x O]; [discriminate|].
  unfold is_signed_int in HO. unfold signed_int.
  change (match run (Atom (Lit "-")) (String x O ++ T) cs
                  (fun s1 cs1 => run digits1 s1 cs1 k) with
          | Some r => Some r
          | None => run digits1 (String x O ++ T) cs k
          end = Some res).
  destruct (Ascii.eqb x "-") eqn:Hx.
  - apply Ascii.eqb_eq in Hx as ->. cbn [run append amatch].
    change (Chr.eqb_ci "-" "-") with true. cbv iota.
    now rewrite (@run_digits1 O T cs k res HO HT Hk).
  - assert (Hm : Chr.eqb_ci x "-" = false).
    { destruct (Chr.eqb_ci x "-") eqn:E; [|reflexivity].
      apply ChrFacts.eqb_ci_minus in E. subst x. discriminate. }
    cbn [run append amatch]. rewrite Hm.
    exact (@run_digits1 (String x O) T cs k res HO HT Hk).
Qed.

Lemma run_key_here M O V K rest cs k res :
  eq_ci M "video" = true ->
  is_signed_int O = true -> is_digits V = true -> is_hex_token K = true ->
  starts_with is_hex rest = false ->
  k rest (cs ++ [K])%list = Some res ->
  run accessKeyRe (M ++ O ++ "_" ++ V ++ "_" ++ K ++ rest) cs k = Some res.
Proof.
  intros HM HO HV HK Hr Hk. unfold accessKeyRe.
  rewrite run_seq_lit_ok by exact HM.
  set (R3 := Seq (lit "_") (Group (Plus hex_class))).
  set (R2 := Seq (lit "_") (Seq digits1 R3)).
  change (run signed_int (O ++ "_" ++ V ++ "_" ++ K ++ rest) cs
            (fun s1 cs1 => run R2 s1 cs1 k) = Some res).
  apply run_signed_int; [exact HO | reflexivity |].
  unfold R2. rewrite (@run_seq_lit_ok _ "_" (Seq digits1 R3) "_") by reflexivity.
  change (run digits1 (V ++ "_" ++ K ++ rest) cs (fun s1 cs1 => run R3 s1 cs1 k) = Some res).
  apply run_digits1; [exact HV | reflexivity |].
  unfold R3. rewrite (@run_seq_lit_ok _ "_" (Group (Plus hex_class)) "_") by reflexivity.
  apply run_group_plus; [exact HK | exact Hr | exact Hk].
Qed.

Lemma run_hash_here sep M K rest cs k res :
  is_param_sep sep = true -> eq_ci M "hash=" = true -> is_hex_token K = true ->
  starts_with is_hex rest = false ->
  k rest (cs ++ [K])%list = Some res ->
  run hashRe (String sep (M ++ K ++ rest)) cs k = Some res.
Proof.
  intros Hs HM HK Hr Hk. unfold hashRe.
  change ((if amatch (Class [One "?"; One "&"]) sep
           then run (Seq (lit "hash=") (Group (Plus hex_class))) (M ++ K ++ rest) cs k
           else None) = Some res).
  rewrite ChrFacts.is_param_sep_spec, Hs.
  rewrite run_seq_lit_ok by exact HM.
  apply run_group_plus; [exact HK | exact Hr | exact Hk].
Qed.

End KeyPriorities.

(** The [hash] pattern needs [hash=] right after its first character. *)
Lemma hash_needs_marker x t : starts_ci "hash=" t = false -> match_here hashRe (String x t) = None.
Proof.
  intros H. unfold match_here, hashRe.
  change (run (Seq (Atom (Class [One "?"; One "&"])) (Seq (lit "hash=") (Group (Plus hex_class))))
              (String x t) []
              (fun s' cs => Some (Str.between (String x t) s' :: cs)))
    with (if amatch (Class [One "?"; One "&"]) x
          then run (Seq (lit "hash=") (Group (Plus hex_class))) t []
                   (fun s' cs => Some (Str.between (String x t) s' :: cs))
          else None).
  rewrite run_seq_lit_fail by exact H. now destruct (amatch _ x).
Qed.

Lemma index_ci_succ W s n : index_ci W s = Some (S n) -> starts_ci W s = false.
Proof.
  destruct s; cbn [index_ci]; destruct (starts_ci W _); try discriminate; reflexivity.
Qed.

Lemma js_match_hash_skip pre : forall sep s,
  index_ci "hash=" (pre ++ String sep s) = Some (S (String.length pre)) ->
  js_match hashRe (pre ++ String sep s) = js_match hashRe (String sep s).
Proof.
  induction pre as [|x pre IH]; intros sep s H; [reflexivity|].
  cbn [append String.length index_ci] in H.
  destruct (starts_ci "hash=" (String x (pre ++ String sep s))) eqn:E; [discriminate|].
  destruct (index_ci "hash=" (pre ++ String sep s)) as [n|] eqn:En; [|discriminate].
  injection H as ->.
  cbn [append]. rewrite js_match_skip.
  - now apply IH.
  - apply hash_needs_marker. exact (index_ci_succ _ _ En).
Qed.

(** X17: for a URL whose first [video] (in any case) is followed by
    [<signed int>_<int>_<hex token>] and then something other than a
    hexadecimal digit, the access key is that token -- whatever [hash=]
    parameter the URL also has. *)
Theorem path_token_is_key pre M O V K rest :
  index_ci "video" (key_url pre M O V K rest) = Some (String.length pre) ->
  eq_ci M "video" = true ->
  is_signed_int O = true ->
  is_digits V = true ->
  is_hex_token K = true ->
  starts_with is_hex rest = false ->
  existingAccessKey (parse (key_url pre M O V K rest)) = Some K.
Proof.
  intros Hfirst HM HO HV HK Hr.
  rewrite key_priority.
  assert (E : exists w, js_match accessKeyRe (key_url pre M O V K rest) = Some [w; K]).
  { eexists. unfold key_url, accessKeyRe in *. rewrite js_match_first by exact Hfirst.
    apply js_match_here. unfold match_here.
    apply (@run_key_here _ M O V K rest); try assumption. reflexivity. }
  destruct E as [w E]. unfold path_key. now rewrite E.
Qed.

Lemma path_token_is_key_witness :
  existingAccessKey (parse "https://vk.com/Video-123456789_456239017_DEADbeef?hash=0a1b")
    = Some "DEADbeef".
Proof.
  exact (@path_token_is_key "https://vk.com/" "Video" "-123456789" "456239017" "DEADbeef"
           "?hash=0a1b" eq_refl eq_refl eq_refl eq_refl eq_refl eq_refl).
Defined.

(** X18: for a URL with no key in its path, whose first [hash=] (in any
    case) comes right after a [?] or a [&] and is followed by a
    hexadecimal token and then something other than a hexadecimal digit,
    the access key is that token -- whichever identifier pattern matched,
    or none. *)
Theorem hash_parameter_is_key pre sep M K rest :
  path_key (hash_url_of pre sep M K rest) = None ->
  index_ci "hash=" (hash_url_of pre sep M K rest) = Some (S (String.length pre)) ->
  is_param_sep sep = true ->
  eq_ci M "hash=" = true ->
  is_hex_token K = true ->
  starts_with is_hex rest = false ->
  existingAccessKey (parse (hash_url_of pre sep M K rest)) = Some K.
Proof.
  intros Hpath Hfirst Hs HM HK Hr.
  rewrite key_priority, Hpath.
  assert (E : exists w, js_match hashRe (hash_url_of pre sep M K rest) = Some [w; K]).
  { eexists. unfold hash_url_of in *. rewrite js_match_hash_skip by exact Hfirst.
    apply js_match_here. unfold match_here.
    apply run_hash_here; try assumption. reflexivity. }
  destruct E as [w E]. unfold hash_param. now rewrite E.
Qed.

Lemma hash_parameter_is_key_witness :
  existingAccessKey (parse "https://vk.com/video-123456789_456239017?list=x&Hash=0A1b&t=5")
    = Some "0A1b".
Proof.
  exact (@hash_parameter_is_key "https://vk.com/video-123456789_456239017?list=x" "&"
           "Hash=" "0A1b" "&t=5" eq_refl eq_refl eq_refl eq_refl eq_refl eq_refl).
Defined.

(* ================================================================== *)
(** ** The parser returns pieces of the URL *)

Lemma append_nil_r (s : string) : s ++ "" = s.
Proof. induction s as [|c s IH]; simpl; [reflexivity | now rewrite IH]. Qed.

Lemma occurs_in_mid a o b : occurs_in o (a ++ o ++ b).
Proof. now exists a, b. Qed.

Lemma occurs_in_end a o : occurs_in o (a ++ o).
Proof. exists a, "". now rewrite append_nil_r. Qed.

Lemma occurs_in_contains (sh : string -> Prop) o url :
  contains sh url -> (forall w, sh w -> occurs_in o w) -> occurs_in o url.
Proof.
  intros (pre & w & post & -> & Hs) H. destruct (H w Hs) as (a & b & ->).
  exists (pre ++ a), (b ++ post). now rewrite !append_assoc.
Qed.

Lemma ext_shape_occurs O V w : ext_shape O V w -> occurs_in O w /\ occurs_in V w.
Proof.
  intros (X & a & M1 & b & M2 & -> & _). split.
  - replace (X ++ a ++ M1 ++ O ++ b ++ M2 ++ V) with ((X ++ a ++ M1) ++ O ++ b ++ M2 ++ V)
      by now rewrite !append_assoc.
    apply occurs_in_mid.
  - replace (X ++ a ++ M1 ++ O ++ b ++ M2 ++ V) with ((X ++ a ++ M1 ++ O ++ b ++ M2) ++ V)
      by now rewrite !append_assoc.
    apply occurs_in_end.
Qed.

Lemma standard_shape_occurs O V w : standard_shape O V w -> occurs_in O w /\ occurs_in V w.
Proof.
  intros (h & M & -> & _). split.
  - replace (h ++ M ++ O ++ "_" ++ V) with ((h ++ M) ++ O ++ "_" ++ V)
      by now rewrite !append_assoc.
    apply occurs_in_mid.
  - replace (h ++ M ++ O ++ "_" ++ V) with ((h ++ M ++ O ++ "_") ++ V)
      by now rewrite !append_assoc.
    apply occurs_in_end.
Qed.

Lemma z_shape_occurs O V w : z_shape O V w -> occurs_in O w /\ occurs_in V w.
Proof.
  intros (M & -> & _). split.
  - apply occurs_in_mid.
  - replace (M ++ O ++ "_" ++ V) with ((M ++ O ++ "_") ++ V) by now rewrite !append_assoc.
    apply occurs_in_end.
Qed.

Lemma key_shape_occurs K w : key_shape K w -> occurs_in K w.
Proof.
  intros (M & O & V & -> & _).
  replace (M ++ O ++ "_" ++ V ++ "_" ++ K) with ((M ++ O ++ "_" ++ V ++ "_") ++ K)
    by now rewrite !append_assoc.
  apply occurs_in_end.
Qed.

Lemma hash_shape_occurs K w : hash_shape K w -> occurs_in K w.
Proof.
  intros (sep & M & -> & _).
  change (String sep (M ++ K)) with (String sep M ++ K). apply occurs_in_end.
Qed.

(** Where the identifiers the parser returns come from. *)
Lemma ids_come_from_a_shape url o v :
  ownerId (parse url) = Some o -> videoId (parse url) = Some v ->
  contains (ext_shape o v) url \/ contains (standard_shape o v) url \/
  contains (z_shape o v) url.
Proof.
  intros Eo Ev. destruct (ids_priority url) as (H1 & H2 & H3 & H4).
  destruct (js_match extRe url) as [m|] eqn:E1.
  { destruct (H1 m eq_refl) as [Ho Hv].
    apply (found2 Shape.ext_iff) in E1 as (w & O & V & -> & _ & Hc).
    cbn in Ho, Hv. left. congruence. }
  destruct (js_match standardRe url) as [m|] eqn:E2.
  { destruct (H2 eq_refl m eq_refl) as [Ho Hv].
    apply (found2 Shape.standard_iff) in E2 as (w & O & V & -> & _ & Hc).
    cbn in Ho, Hv. right. left. congruence. }
  destruct (js_match zRe url) as [m|] eqn:E3.
  { destruct (H3 eq_refl eq_refl m eq_refl) as [Ho Hv].
    apply (found2 Shape.z_iff) in E3 as (w & O & V & -> & _ & Hc).
    cbn in Ho, Hv. right. right. congruence. }
  destruct (H4 eq_refl eq_refl eq_refl) as [Ho _]. congruence.
Qed.

(** X19: the parser invents nothing: when it succeeds, the owner id, the
    video id and the access key it returns are each a piece of the URL as
    it was written, in the case it was written in. *)
Theorem parsed_text_occurs_in_url url :
  ids_missing (parse url) = false ->
  (forall o, ownerId (parse url) = Some o -> occurs_in o url) /\
  (forall v, videoId (parse url) = Some v -> occurs_in v url) /\
  (forall k, existingAccessKey (parse url) = Some k -> occurs_in k url).
Proof.
  intros Hm. destruct (ids_present _ Hm) as (o & v & Eo & Ev).
  assert (Hov : occurs_in o url /\ occurs_in v url).
  { destruct (ids_come_from_a_shape url Eo Ev) as [Hc|[Hc|Hc]]; split;
      apply (occurs_in_contains Hc); intros w Hw.
    - apply (ext_shape_occurs Hw).
    - apply (ext_shape_occurs Hw).
    - apply (standard_shape_occurs Hw).
    - apply (standard_shape_occurs Hw).
    - apply (z_shape_occurs Hw).
    - apply (z_shape_occurs Hw). }
  split; [|split].
  - intros o' E. rewrite Eo in E. injection E as <-. apply Hov.
  - intros v' E. rewrite Ev in E. injection E as <-. apply Hov.
  - intros k. rewrite key_priority.
    destruct (path_key url) as [K|] eqn:E.
    + intros [= <-]. destruct (path_key_max _ E) as (pre & w & post & -> & Hs & _).
      apply (@occurs_in_contains (key_shape K)); [now exists pre, w, post|].
      apply key_shape_occurs.
    + intros Hk%hash_param_some.
      apply (occurs_in_contains Hk). apply hash_shape_occurs.
Qed.

Lemma parsed_text_occurs_in_url_witness :
  let url := "https://vk.com/video_ext.php?oid=-1&id=2&hash=AbC" in
  (forall o, ownerId (parse url) = Some o -> occurs_in o url) /\
  (forall v, videoId (parse url) = Some v -> occurs_in v url) /\
  (forall k, existingAccessKey (parse url) = Some k -> occurs_in k url).
Proof.
  exact (@parsed_text_occurs_in_url "https://vk.com/video_ext.php?oid=-1&id=2&hash=AbC" eq_refl).
Defined.

(* ================================================================== *)
(** ** The extension-embed pattern on well-separated parameters *)

Section ExtPriorities.
Variable A : Type.
Implicit Types (k : string -> captures -> option A).

(** A literal followed by a pattern that needs a character of [p] fails
    where the literal is not followed by such a character. *)
Lemma run_lit_then_fail W p : forall s cs k,
  (forall t cs', starts_with p t = false -> k t cs' = None) ->
  starts_then W p s = false -> run (lit W) s cs k = None.
Proof.
  induction W as [|d W IH]; intros s cs k Hk H.
  - apply Hk. now destruct s.
  - destruct s as [|x s]; [reflexivity|].
    cbn [starts_then] in H. cbn [lit run amatch].
    destruct (Chr.eqb_ci x d); [|reflexivity].
    now apply IH.
Qed.

Lemma run_signed_needs_number t cs k :
  starts_with is_sign_or_digit t = false -> run (Group signed_int) t cs k = None.
Proof.
  intros H. destruct t as [|x t]; [reflexivity|].
  cbn [starts_with] in H. unfold is_sign_or_digit in H.
  apply orb_false_iff in H as [Hm Hd].
  assert (Hci : Chr.eqb_ci x "-" = false).
  { destruct (Chr.eqb_ci x "-") eqn:E; [|reflexivity].
    apply ChrFacts.eqb_ci_minus in E. subst x. discriminate. }
  unfold signed_int, digits1. cbn [run amatch]. now rewrite Hci, Hd.
Qed.

Lemma run_digits_needs_digit t cs k :
  starts_with Chr.is_digit t = false -> run (Group digits1) t cs k = None.
Proof.
  intros H. destruct t as [|x t]; [reflexivity|].
  cbn [starts_with] in H. unfold digits1. cbn [run amatch]. now rewrite H.
Qed.

End ExtPriorities.

Lemma occurs_then_suffix W p : forall s u v,
  occurs_then W p s = false -> s = u ++ v -> starts_then W p v = false.
Proof.
  induction s as [|x s IH]; intros u v H E.
  - destruct u; [|discriminate]. simpl in E. subst v.
    cbn [occurs_then] in H. now apply orb_false_iff in H as [H _].
  - cbn [occurs_then] in H. apply orb_false_iff in H as [H1 H2].
    destruct u as [|y u]; simpl in E.
    + now subst v.
    + injection E as -> E. now apply (IH u v).
Qed.

(** A marker none of whose characters can begin [W] hides no start of
    [W]. *)
Lemma occurs_then_skip w0 W0 p : forall W' M T,
  eq_ci M W' = true ->
  Str.all (fun d => negb (Chr.eqb_ci d w0)) W' = true ->
  occurs_then (String w0 W0) p (M ++ T) = occurs_then (String w0 W0) p T.
Proof.
  induction W' as [|d W' IH]; intros [|x M] T HM HW; try discriminate.
  - reflexivity.
  - simpl in HM, HW.
    apply andb_true_iff in HM as [Hx HM]. apply andb_true_iff in HW as [Hd HW].
    apply negb_true_iff in Hd.
    cbn [append occurs_then starts_then].
    rewrite (ChrFacts.eqb_ci_neq _ _ _ Hx Hd). cbn [andb orb]. now apply IH.
Qed.

(** The extension-embed pattern on a query whose [oid] and [id] are
    parameters of their own: with no later [oid=] before a sign or a
    digit and no later [id=] before a digit, the groups are the two
    numbers. *)
Lemma run_ext_param_here (A : Type) X a M1 O b M2 V rest cs
      (k : string -> captures -> option A) res :
  eq_ci X "video_ext.php?" = true ->
  same_line a = true ->
  eq_ci M1 "oid=" = true -> is_signed_int O = true ->
  same_line b = true ->
  occurs_then "oid=" is_sign_or_digit (O ++ "&" ++ b ++ M2 ++ V ++ rest) = false ->
  eq_ci M2 "id=" = true -> is_digits V = true ->
  starts_with Chr.is_digit rest = false ->
  occurs_then "id=" Chr.is_digit (V ++ rest) = false ->
  k rest (cs ++ [O; V])%list = Some res ->
  run extRe (X ++ a ++ M1 ++ O ++ "&" ++ b ++ M2 ++ V ++ rest) cs k = Some res.
Proof.
  intros HX Ha HM1 HO Hb Hoid HM2 HV Hr Hid Hk.
  unfold extRe. rewrite (run_seq_lit_ok _ _ _ _ _ _ HX).
  set (R3 := Seq (lit "id=") (Group digits1)).
  set (R2 := Seq (Star Dot) R3).
  set (R1 := Seq (lit "oid=") (Seq (Group signed_int) R2)).
  change (star Dot (a ++ M1 ++ O ++ "&" ++ b ++ M2 ++ V ++ rest)
            (fun s' => run R1 s' cs k) = Some res).
  apply star_skip; [exact Ha|].
  destruct M1 as [|m1 M1]; [discriminate|].
  simpl in HM1. apply andb_true_iff in HM1 as [Hm1 HM1].
  cbn [append]. rewrite star_last.
  2:{ intros u v E. unfold R1.
      change (run (lit "oid=") v cs
                (fun s1 cs1 => run (Seq (Group signed_int) R2) s1 cs1 k) = None).
      apply run_lit_then_fail with (p := is_sign_or_digit).
      - intros t cs' Ht.
        change (run (Group signed_int) t cs' (fun s1 cs1 => run R2 s1 cs1 k) = None).
        now apply run_signed_needs_number.
      - apply (@occurs_then_suffix "oid=" is_sign_or_digit
                 (M1 ++ O ++ "&" ++ b ++ M2 ++ V ++ rest) u); [|exact E].
        now rewrite (@occurs_then_skip "o" "id=" is_sign_or_digit "id=" M1). }
  change (run R1 (String m1 M1 ++ O ++ "&" ++ b ++ M2 ++ V ++ rest) cs k = Some res).
  assert (HM1' : eq_ci (String m1 M1) "oid=" = true) by (simpl; now rewrite Hm1, HM1).
  unfold R1. rewrite (run_seq_lit_ok _ _ _ _ _ _ HM1').
  change (run (Group signed_int) (O ++ "&" ++ b ++ M2 ++ V ++ rest) cs
            (fun s1 cs1 => run R2 s1 cs1 k) = Some res).
  destruct M2 as [|m2 M2]; [discriminate|].
  simpl in HM2. apply andb_true_iff in HM2 as [Hm2 HM2].
  apply run_group_signed; [exact HO | reflexivity |].
  change (star Dot (("&" ++ b) ++ String m2 M2 ++ V ++ rest)
            (fun s' => run R3 s' (cs ++ [O])%list k) = Some res).
  apply star_skip; [exact Hb|].
  cbn [append]. rewrite star_last.
  2:{ intros u v E. unfold R3.
      change (run (lit "id=") v (cs ++ [O])%list
                (fun s1 cs1 => run (Group digits1) s1 cs1 k) = None).
      apply run_lit_then_fail with (p := Chr.is_digit).
      - intros t cs' Ht. now apply run_digits_needs_digit.
      - apply (@occurs_then_suffix "id=" Chr.is_digit (M2 ++ V ++ rest) u); [|exact E].
        now rewrite (@occurs_then_skip "i" "d=" Chr.is_digit "d=" M2). }
  change (String m2 (M2 ++ V ++ rest)) with (String m2 M2 ++ V ++ rest).
  assert (HM2' : eq_ci (String m2 M2) "id=" = true) by (simpl; now rewrite Hm2, HM2).
  unfold R3. rewrite (run_seq_lit_ok _ _ _ _ _ _ HM2').
  apply run_group_digits; [exact HV | exact Hr |].
  now rewrite <- app_assoc.
Qed.

(** The first [hash=] of a URL, when it is a parameter with a hexadecimal
    value, is what the [hash] pattern finds. *)
Lemma hash_param_exact pre sep M K rest :
  index_ci "hash=" (hash_url_of pre sep M K rest) = Some (S (String.length pre)) ->
  is_param_sep sep = true ->
  eq_ci M "hash=" = true ->
  is_hex_token K = true ->
  starts_with is_hex rest = false ->
  hash_param (hash_url_of pre sep M K rest) = Some K.
Proof.
  intros Hfirst Hs HM HK Hr.
  assert (E : exists w, js_match hashRe (hash_url_of pre sep M K rest) = Some [w; K]).
  { eexists. unfold hash_url_of in *. rewrite js_match_hash_skip by exact Hfirst.
    apply js_match_here. unfold match_here.
    apply run_hash_here; try assumption. reflexivity. }
  destruct E as [w E]. unfold hash_param. now rewrite E.
Qed.

Lemma value_end_not_digit rest :
  value_end rest = true -> starts_with Chr.is_digit rest = false.
Proof.
  destruct rest as [|c rest]; [reflexivity|]. cbn [value_end starts_with].
  apply ChrFacts.sep_not_digit.
Qed.

(** C3, as amended: take a URL whose first [video_ext.php?] (in any
    case) is followed on its line by a parameter [oid=<signed int>] and,
    after it, by a parameter [id=<int>]: each of the two at the start of
    the query or right after a [&], the [oid] value ending at a [&] and
    the [id] value at a [&], a [#] or the end of the URL, with no later
    [oid=] before a sign or digit and no later [id=] before a digit.
    Then the parser takes [ownerId] from the [oid] and [videoId] from the
    [id]; and when the first [hash=] of the URL is a parameter with a
    hexadecimal value, step 1 adopts the whole of that value as the
    access key, which is also the parser's final key when the path
    carries none. *)
Theorem C3_extension_embed pre X a M1 O b M2 V rest :
  let url := ext_param_url pre X a M1 O b M2 V rest in
  eq_ci X "video_ext.php?" = true ->
  index_ci "video_ext.php?" url = Some (String.length pre) ->
  same_line a = true ->
  param_start a = true ->
  eq_ci M1 "oid=" = true ->
  is_signed_int O = true ->
  same_line b = true ->
  param_start b = true ->
  occurs_then "oid=" is_sign_or_digit (O ++ "&" ++ b ++ M2 ++ V ++ rest) = false ->
  eq_ci M2 "id=" = true ->
  is_digits V = true ->
  value_end rest = true ->
  occurs_then "id=" Chr.is_digit (V ++ rest) = false ->
  ownerId (step_ext url initial) = Some O /\
  videoId (step_ext url initial) = Some V /\
  ownerId (parse url) = Some O /\
  videoId (parse url) = Some V /\
  (forall hp sep HM K hrest,
     url = hash_url_of hp sep HM K hrest ->
     index_ci "hash=" url = Some (S (String.length hp)) ->
     is_param_sep sep = true ->
     eq_ci HM "hash=" = true ->
     is_hex_token K = true ->
     starts_with is_hex hrest = false ->
     existingAccessKey (step_ext url initial) = Some K /\
     (path_key url = None -> existingAccessKey (parse url) = Some K)).
Proof.
  intros url HX Hfirst Ha _ HM1 HO Hb _ Hoid HM2 HV Hr Hid.
  assert (E : exists w, js_match extRe url = Some [w; O; V]).
  { eexists. unfold url, ext_param_url, extRe in *.
    rewrite js_match_first by exact Hfirst.
    apply js_match_here. unfold match_here.
    apply run_ext_param_here; try assumption.
    - now apply value_end_not_digit.
    - reflexivity. }
  destruct E as [w E].
  destruct (@step_ext_ids url w O V E) as [Eo Ev].
  destruct (@ids_of_step_ext url O V Eo Ev) as [Po Pv].
  pose proof (@step_ext_key url _ E) as Ek.
  repeat split; try assumption.
  - rewrite Ek, H. now apply hash_param_exact; rewrite <- ?H.
  - intros Hp. rewrite key_priority, Hp, H. now apply hash_param_exact; rewrite <- ?H.
Qed.

Lemma C3_extension_embed_witness :
  let url :=
    "https://vk.com/Video_Ext.php?OID=-123456789&Id=456239017&hash=abc123&fbclid=IwAR0" in
  ownerId (parse url) = Some "-123456789" /\
  videoId (parse url) = Some "456239017" /\
  existingAccessKey (step_ext url initial) = Some "abc123" /\
  existingAccessKey (parse url) = Some "abc123".
Proof.
  destruct (@C3_extension_embed "https://vk.com/" "Video_Ext.php?" "" "OID=" "-123456789"
              "" "Id=" "456239017" "&hash=abc123&fbclid=IwAR0"
              eq_refl eq_refl eq_refl eq_refl eq_refl eq_refl eq_refl
              eq_refl eq_refl eq_refl eq_refl eq_refl eq_refl)
    as (_ & _ & Ho & Hv & Hk).
  destruct (Hk "https://vk.com/Video_Ext.php?OID=-123456789&Id=456239017" "&"%char
              "hash=" "abc123" "&fbclid=IwAR0"
              eq_refl eq_refl eq_refl eq_refl eq_refl eq_refl) as [Hk1 Hk2].
  split; [exact Ho|]. split; [exact Hv|]. split; [exact Hk1 | exact (Hk2 eq_refl)].
Defined.
